(** * The timeline element: event normalisation, the ordered buffer and the
      stream coordinator.

    A shallow embedding of [components/timeline/utils.ts]
    ([getTapeEventFromMessage], [getIconData] and its tables) and of the
    [Timeline.ELEMENT] class
    ([updated], [enqueueEvent], [dequeuePastOneEvent], [getAPIQueryParams],
    [getJourney], [subscribeToStream] and the two EventSource handlers),
    followed by the properties of the ingestion logic. *)

From Stdlib Require Import ZArith QArith Qround List String Bool Arith Lia.
From Stdlib Require Import Permutation.
Import ListNotations.
Set Warnings "-register-all".
Local Open Scope string_scope.
Local Open Scope list_scope.
Local Open Scope nat_scope.
Local Abbreviation length := Datatypes.length.

(** ** JavaScript values and control flow *)

Module JS.

(** What [JSON.parse] and [Response.json] can return.  Numbers are kept as
    integers: the code only ever looks at whether a number is zero. *)
Inductive JSON : Type :=
| JNull
| JBool (b : bool)
| JNum (n : Z)
| JStr (s : string)
| JArr (items : list JSON)
| JObj (fields : list (string * JSON)).

(** A value read from a property: [None] is [undefined]. *)
Definition Value : Type := option JSON.

(** ToBoolean. *)
Definition truthy (v : Value) : bool :=
  match v with
  | None => false
  | Some JNull => false
  | Some (JBool b) => b
  | Some (JNum n) => negb (n =? 0)%Z
  | Some (JStr s) => negb (String.eqb s "")
  | Some (JArr _) => true
  | Some (JObj _) => true
  end.

(** The string-valued element properties ([filter: string | undefined],
    [streamId: string | null], [pagination: string | null]). *)
Inductive Attr : Type :=
| undefined
| null
| str (s : string).

Definition truthyAttr (a : Attr) : bool :=
  match a with
  | str s => negb (String.eqb s "")
  | _ => false
  end.

(** [a === b] on such values. *)
Definition strictEq (a b : Attr) : bool :=
  match a, b with
  | undefined, undefined => true
  | null, null => true
  | str s, str t => String.eqb s t
  | _, _ => false
  end.

(** String conversion, as performed by [+=] and by template literals. *)
Definition toString (a : Attr) : string :=
  match a with
  | undefined => "undefined"
  | null => "null"
  | str s => s
  end.

Inductive Exn : Type :=
| TypeError.

(** Outcome of running a piece of code: a value, an uncaught exception, or
    a loop that is still running when the fuel is exhausted. *)
Inductive result (A : Type) : Type :=
| Ok (a : A)
| Throw (e : Exn)
| OutOfFuel.

Arguments Ok {A} a.
Arguments Throw {A} e.
Arguments OutOfFuel {A}.

Definition bind {A B : Type} (m : result A) (k : A -> result B) : result B :=
  match m with
  | Ok a => k a
  | Throw e => Throw e
  | OutOfFuel => OutOfFuel
  end.

(** [while (cond) body], one unit of fuel for each evaluation of [cond]. *)
Fixpoint while {S : Type} (fuel : nat) (cond : S -> result bool)
    (body : S -> result S) (s : S) : result S :=
  match fuel with
  | O => OutOfFuel
  | Datatypes.S fuel' =>
      bind (cond s) (fun c =>
        if c then bind (body s) (while fuel' cond body) else Ok s)
  end.

(** [xs.map(f)] where [f] may throw: the first exception aborts the map. *)
Fixpoint mapM {A B : Type} (f : A -> result B) (xs : list A)
    : result (list B) :=
  match xs with
  | [] => Ok []
  | x :: xs' =>
      bind (f x) (fun y => bind (mapM f xs') (fun ys => Ok (y :: ys)))
  end.

(** [xs.map(f)] where [f] updates the element: left to right. *)
Fixpoint foldM {A S : Type} (f : S -> A -> result S) (s : S) (xs : list A)
    : result S :=
  match xs with
  | [] => Ok s
  | x :: xs' => bind (f s x) (fun s' => foldM f s' xs')
  end.

(** [m.k] for a parsed message [m]: reading a property of [null] throws, an
    object yields its field, and any other value has none of the properties
    the code asks for.  A parsed object holds each key once. *)
Fixpoint assoc (k : string) (fields : list (string * JSON)) : Value :=
  match fields with
  | [] => None
  | (k', v) :: rest => if String.eqb k' k then Some v else assoc k rest
  end.

Definition get (m : JSON) (k : string) : result Value :=
  match m with
  | JNull => Throw TypeError
  | JObj fields => Ok (assoc k fields)
  | _ => Ok None
  end.

(** [String.prototype.indexOf]: the position of the first occurrence, or
    [-1]. *)
Definition indexOf (s needle : string) : Z :=
  match String.index 0 needle s with
  | Some i => Z.of_nat i
  | None => (-1)%Z
  end.

(** [Array.prototype.indexOf] for a string argument: elements are compared
    with [===], so only a string element can match. *)
Fixpoint arrayIndexOfFrom (i : nat) (items : list JSON) (needle : string) : Z :=
  match items with
  | [] => (-1)%Z
  | JStr s :: rest =>
      if String.eqb s needle then Z.of_nat i else arrayIndexOfFrom (S i) rest needle
  | _ :: rest => arrayIndexOfFrom (S i) rest needle
  end.

End JS.

Import JS.

Declare Scope js_scope.
Delimit Scope js_scope with js.
Notation "x <- m ;; k" := (bind m (fun x => k))
  (at level 61, m at next level, right associativity) : js_scope.
Local Open Scope js_scope.

(** ** Timestamps *)

(** A luxon [DateTime] as the buffer sees it: through [valueOf], which is the
    epoch time in milliseconds for a valid instant and [NaN] otherwise. *)
Inductive DateTime : Type :=
| Instant (ms : Z)
| InvalidDateTime.

Definition isValid (d : DateTime) : bool :=
  match d with
  | Instant _ => true
  | InvalidDateTime => false
  end.

(** [a < b] and [a > b] on DateTimes: a comparison with [NaN] is false. *)
Definition lt (a b : DateTime) : bool :=
  match a, b with
  | Instant x, Instant y => (x <? y)%Z
  | _, _ => false
  end.

Definition gt (a b : DateTime) : bool :=
  match a, b with
  | Instant x, Instant y => (x >? y)%Z
  | _, _ => false
  end.

(** ** utils.ts *)

Record TapeEvent : Type := mkTapeEvent {
  title : Value;
  timestamp : DateTime;
  id : Value;
  person : Value;   (* [None]: the event has no [person] property *)
  data : Value      (* [None]: the event has no [data] property *)
}.

Module Utils.
Section Normalizer.

(** [DateTime.fromISO] belongs to luxon; it is total and reports an
    unparseable argument through an invalid DateTime. *)
Variable fromISO : Value -> DateTime.

(** [message.person && message.person.indexOf("anon") === -1] *)
Definition notAnonymous (p : Value) : result bool :=
  if truthy p then
    match p with
    | Some (JStr s) => Ok (indexOf s "anon" =? -1)%Z
    | Some (JArr items) => Ok (arrayIndexOfFrom 0 items "anon" =? -1)%Z
    | _ => Throw TypeError   (* [indexOf] is not a function *)
    end
  else Ok false.

Definition getTapeEventFromMessage (message : JSON) : result TapeEvent :=
  type_ <- get message "type" ;;
  time_ <- get message "time" ;;
  id_ <- get message "id" ;;
  person_ <- get message "person" ;;
  keep <- notAnonymous person_ ;;
  data_ <- get message "data" ;;
  Ok {| title := type_;
        timestamp := fromISO time_;
        id := id_;
        person := if keep then person_ else None;
        data := if truthy data_ then data_ else None |}.

End Normalizer.
End Utils.

(** ** Timeline.ts *)

Module Timeline.

Inductive Mode : Type :=
| journey
| livestream
| journey_and_stream.

Definition isLivestream (m : Mode) : bool :=
  match m with
  | livestream => true
  | _ => false
  end.

Definition isJourney (m : Mode) : bool :=
  match m with
  | journey => true
  | _ => false
  end.

Definition isJourneyAndStream (m : Mode) : bool :=
  match m with
  | journey_and_stream => true
  | _ => false
  end.

(** The fields of [ELEMENT] that the ingestion logic reads or writes.  An
    open EventSource is represented by a handle. *)
Record ELEMENT : Type := mkELEMENT {
  tapeEvents : list TapeEvent;
  baseURL : string;
  type : Mode;
  filter : Attr;
  streamId : Attr;
  pagination : Attr;
  limit : Z;
  eventSource : option nat
}.

Definition setTapeEvents (evs : list TapeEvent) (el : ELEMENT) : ELEMENT :=
  {| tapeEvents := evs;
     baseURL := baseURL el;
     type := type el;
     filter := filter el;
     streamId := streamId el;
     pagination := pagination el;
     limit := limit el;
     eventSource := eventSource el |}.

Definition setEventSource (h : option nat) (el : ELEMENT) : ELEMENT :=
  {| tapeEvents := tapeEvents el;
     baseURL := baseURL el;
     type := type el;
     filter := filter el;
     streamId := streamId el;
     pagination := pagination el;
     limit := limit el;
     eventSource := h |}.

(** The property setter that lit-element generates for [streamId]: the
    value is stored at once, [updated] runs later. *)
Definition setStreamId (value : Attr) (el : ELEMENT) : ELEMENT :=
  {| tapeEvents := tapeEvents el;
     baseURL := baseURL el;
     type := type el;
     filter := filter el;
     streamId := value;
     pagination := pagination el;
     limit := limit el;
     eventSource := eventSource el |}.

(** *** The ordered buffer *)

(** [this.tapeEvents.shift()]: removes the element at index 0; on an empty
    array it does nothing. *)
Definition dequeuePastOneEvent (el : ELEMENT) : ELEMENT :=
  setTapeEvents (tl (tapeEvents el)) el.

(** [this.tapeEvents.length >= this.limit && this.type === "livestream"] *)
Definition overCapacity (el : ELEMENT) : bool :=
  (Z.of_nat (length (tapeEvents el)) >=? limit el)%Z && isLivestream (type el).

Definition evict (fuel : nat) (el : ELEMENT) : result ELEMENT :=
  while fuel (fun el => Ok (overCapacity el))
             (fun el => Ok (dequeuePastOneEvent el)) el.

(** [item.timestamp] for an item read from the array: the read of an index
    past the end gives [undefined], whose [timestamp] cannot be read. *)
Definition timestampOf (item : option TapeEvent) : result DateTime :=
  match item with
  | Some e => Ok (timestamp e)
  | None => Throw TypeError
  end.

(** The locals of the insertion scan.  [reads] is a ghost field: the indices
    at which [this.tapeEvents] has been read so far, in order. *)
Record Scan : Type := mkScan {
  currentIndex : nat;
  currentItem : option TapeEvent;
  reads : list nat
}.

Definition scanStart (buf : list TapeEvent) : Scan :=
  {| currentIndex := 0; currentItem := nth_error buf 0; reads := [0] |}.

(** [currentItem.timestamp > event.timestamp &&
     currentIndex < this.tapeEvents.length] *)
Definition scanCond (buf : list TapeEvent) (event : TapeEvent) (s : Scan)
    : result bool :=
  t <- timestampOf (currentItem s) ;;
  Ok (gt t (timestamp event) && (currentIndex s <? length buf)).

Definition scanBody (buf : list TapeEvent) (s : Scan) : result Scan :=
  let i := currentIndex s + 1 in
  Ok {| currentIndex := i;
        currentItem := nth_error buf i;
        reads := reads s ++ [i] |}.

Definition scan (fuel : nat) (buf : list TapeEvent) (event : TapeEvent)
    : result Scan :=
  while fuel (scanCond buf event) (scanBody buf) (scanStart buf).

(** [arr.splice(i, 0, x)]; an index past the end is clamped to the length. *)
Definition splice {A : Type} (i : nat) (x : A) (l : list A) : list A :=
  firstn i l ++ x :: skipn i l.

Definition enqueueEvent (fuel : nat) (el : ELEMENT) (event : TapeEvent)
    : result ELEMENT :=
  el <- evict fuel el ;;
  let buf := tapeEvents el in
  let dataLength := length buf in
  if dataLength =? 0 then
    Ok (setTapeEvents [event] el)
  else
    first <- timestampOf (nth_error buf 0) ;;
    if lt first (timestamp event) then
      Ok (setTapeEvents (event :: buf) el)
    else
      last <- timestampOf (nth_error buf (dataLength - 1)) ;;
      if gt last (timestamp event) then
        Ok (setTapeEvents (buf ++ [event]) el)
      else
        s <- scan fuel buf event ;;
        Ok (setTapeEvents (splice (currentIndex s) event buf) el).

(** *** The stream coordinator *)

(** What the element asks of its environment, in the order asked. *)
Inductive Effect : Type :=
| Fetch (url : string)
| EventSourceOpen (handle : nat) (url : string)
| EventSourceClose (handle : nat)
| RequestUpdate.

Record World : Type := mkWorld {
  this : ELEMENT;
  trace : list Effect
}.

Definition emit (e : Effect) (w : World) : World :=
  {| this := this w; trace := trace w ++ [e] |}.

Definition withThis (el : ELEMENT) (w : World) : World :=
  {| this := el; trace := trace w |}.

(** [url] starts as [this.streamId] and is only ever extended with [+=] and
    then interpolated, so it is followed here in its string form. *)
Definition getAPIQueryParams (forJourney : bool) (el : ELEMENT) : string :=
  (let url := toString (streamId el) in
   let url :=
     if truthyAttr (filter el)
     then url ++ "&$filter=" ++ toString (filter el) else url in
   if truthyAttr (pagination el) then url ++ "&" ++ toString (pagination el)
   else if negb (truthyAttr (pagination el)) && forJourney
        then url ++ "&$top=10"
        else url)%string.

Definition journeyURL (el : ELEMENT) : string :=
  (baseURL el ++ "/journey?" ++ getAPIQueryParams true el)%string.

Definition realTimeURL (el : ELEMENT) : string :=
  (baseURL el ++ "/real-time?" ++ getAPIQueryParams false el)%string.

(** [getJourney] only issues the request; its continuation is
    [journeyResponse]. *)
Definition getJourney (w : World) : World :=
  emit (Fetch (journeyURL (this w))) w.

Definition subscribeToStream (w : World) : World :=
  let w :=
    match eventSource (this w) with
    | Some h => emit (EventSourceClose h) w
    | None => w
    end in
  let w :=
    if isJourney (type (this w)) || isJourneyAndStream (type (this w))
    then getJourney w else w in
  if negb (isJourney (type (this w))) then
    let h := length (trace w) in
    emit (EventSourceOpen h (realTimeURL (this w)))
         (withThis (setEventSource (Some h) (this w)) w)
  else w.

(** [changedProperties]: property name and previous value.  Only the
    previous value of [filter] is inspected. *)
Definition shouldResubscribe (changedProperties : list (string * Attr))
    (el : ELEMENT) : bool :=
  existsb (fun entry =>
    let '(name, oldValue) := entry in
    if String.eqb name "streamId" && truthyAttr (streamId el) then true
    else if String.eqb name "filter" && negb (strictEq (filter el) oldValue)
            && truthyAttr (streamId el) then true
    else false) changedProperties.

Definition updated (changedProperties : list (string * Attr)) (w : World)
    : World :=
  if shouldResubscribe changedProperties (this w) then
    subscribeToStream
      (emit RequestUpdate (withThis (setTapeEvents [] (this w)) w))
  else w.

Section Handlers.

Variable fromISO : Value -> DateTime.

(** [JSON.parse]; [None] when it throws a SyntaxError. *)
Variable JSON_parse : string -> option JSON.

(** The second [then] of [getJourney], applied to the parsed body [x]:
    [x?.map(getTapeEventFromMessage).map(z => this.enqueueEvent(z))]. *)
Definition journeyResponse (fuel : nat) (x : JSON) (el : ELEMENT)
    : result ELEMENT :=
  match x with
  | JNull => Ok el
  | JArr items =>
      events <- mapM (Utils.getTapeEventFromMessage fromISO) items ;;
      foldM (enqueueEvent fuel) el events
  | _ => Throw TypeError   (* [x.map] is not a function *)
  end.

(** [eventSource.onmessage] *)
Definition onmessage (fuel : nat) (event_data : string) (w : World)
    : result World :=
  let data : Value := JSON_parse event_data in   (* [catch] leaves it undefined *)
  if truthy data then
    match data with
    | Some message =>
        event <- Utils.getTapeEventFromMessage fromISO message ;;
        el <- enqueueEvent fuel (this w) event ;;
        Ok (withThis el w)
    | None => Ok w
    end
  else Ok w.

(** [eventSource.onerror] *)
Definition onerror (w : World) : World := subscribeToStream w.

(** What can happen to the element.  A response carries the URL of the
    request it answers; a closed EventSource delivers nothing. *)
Inductive Input : Type :=
| StreamIdAssigned (value : Attr)
| PropertiesUpdated (changedProperties : list (string * Attr))
| JourneyResponded (url : string) (x : JSON)
| MessageReceived (handle : nat) (event_data : string)
| ErrorOccurred (handle : nat).

(** Handles are never reused, so a connection is open when it has been
    opened and not closed since. *)
Definition isOpen (handle : nat) (tr : list Effect) : bool :=
  existsb (fun e => match e with
                    | EventSourceOpen h _ => h =? handle
                    | _ => false
                    end) tr
  && negb (existsb (fun e => match e with
                             | EventSourceClose h => h =? handle
                             | _ => false
                             end) tr).

Definition step (fuel : nat) (w : World) (i : Input) : result World :=
  match i with
  | StreamIdAssigned value => Ok (withThis (setStreamId value (this w)) w)
  | PropertiesUpdated changedProperties => Ok (updated changedProperties w)
  | JourneyResponded _ x =>
      el <- journeyResponse fuel x (this w) ;;
      Ok (withThis el w)
  | MessageReceived handle event_data =>
      if isOpen handle (trace w) then onmessage fuel event_data w else Ok w
  | ErrorOccurred handle =>
      if isOpen handle (trace w) then Ok (onerror w) else Ok w
  end.

Definition run (fuel : nat) (w : World) (inputs : list Input)
    : result World :=
  foldM (step fuel) w inputs.

End Handlers.

End Timeline.

(** ** The element in its page *)

Module Page.

Import Timeline.

(** An assignment to one of the element's public properties. *)
Inductive Assignment : Type :=
| AssignTapeEvents (value : list TapeEvent)
| AssignBaseURL (value : string)
| AssignType (value : Mode)
| AssignFilter (value : Attr)
| AssignStreamId (value : Attr)
| AssignPagination (value : Attr)
| AssignLimit (value : Z).

Definition assign (a : Assignment) (el : ELEMENT) : ELEMENT :=
  match a with
  | AssignTapeEvents value => setTapeEvents value el
  | AssignBaseURL value =>
      {| tapeEvents := tapeEvents el; baseURL := value; type := type el;
         filter := filter el; streamId := streamId el;
         pagination := pagination el; limit := limit el;
         eventSource := eventSource el |}
  | AssignType value =>
      {| tapeEvents := tapeEvents el; baseURL := baseURL el; type := value;
         filter := filter el; streamId := streamId el;
         pagination := pagination el; limit := limit el;
         eventSource := eventSource el |}
  | AssignFilter value =>
      {| tapeEvents := tapeEvents el; baseURL := baseURL el; type := type el;
         filter := value; streamId := streamId el;
         pagination := pagination el; limit := limit el;
         eventSource := eventSource el |}
  | AssignStreamId value => setStreamId value el
  | AssignPagination value =>
      {| tapeEvents := tapeEvents el; baseURL := baseURL el; type := type el;
         filter := filter el; streamId := streamId el;
         pagination := value; limit := limit el;
         eventSource := eventSource el |}
  | AssignLimit value =>
      {| tapeEvents := tapeEvents el; baseURL := baseURL el; type := type el;
         filter := filter el; streamId := streamId el;
         pagination := pagination el; limit := value;
         eventSource := eventSource el |}
  end.

(** What the page does with the element: it assigns a property, or the
    browser runs one of the element's callbacks. *)
Inductive Occurrence : Type :=
| Assigned (a : Assignment)
| Delivered (i : Input).

Section Page.

Variable fromISO : Value -> DateTime.
Variable JSON_parse : string -> option JSON.

(** One occurrence.  An exception that a callback does not catch is
    reported by the browser, which then goes on: the callbacks throw only
    before they assign to the element, so the element is as it was.  A
    callback that does not return stops everything. *)
Definition handle (fuel : nat) (w : World) (o : Occurrence) : result World :=
  match o with
  | Assigned a => Ok (withThis (assign a (this w)) w)
  | Delivered i =>
      match step fromISO JSON_parse fuel w i with
      | Ok w' => Ok w'
      | Throw _ => Ok w
      | OutOfFuel => OutOfFuel
      end
  end.

Definition handleAll (fuel : nat) (w : World) (occurrences : list Occurrence)
    : result World :=
  foldM (handle fuel) w occurrences.

End Page.

End Page.

(** ** utils.ts: icons *)

Module Icons.

(** An entry of the icon table.  A generated entry reads both fields out of
    an array, so either may be [undefined]. *)
Record IconData : Type := mkIconData {
  name : option string;
  color : option string
}.

Definition EVENT_ICON_MAP : list (string * IconData) :=
  [("Page Visit",
    {| name := Some "icon-open-pages_16"; color := Some "purple" |});
   ("Identify",
    {| name := Some "icon-user_16"; color := Some "blue" |});
   ("NPS.*",
    {| name := Some "icon-analysis_16"; color := Some "red" |});
   ("Walkin Offered",
    {| name := Some "icon-audio-video_16"; color := Some "yellow" |})].

Definition staticColors : list string :=
  ["purple"; "mint"; "slate"; "gold"; "lime"; "darkmint"; "green"; "yellow";
   "red"; "orange"; "violet"; "cyan"; "cobalt"; "pink"].

Definition staticIcons : list string :=
  ["icon-apps_16"; "icon-activities_16"; "icon-breakout-session_16";
   "icon-commenting_16"; "icon-explore_16"; "icon-filter-circle_16"].

(** What reading a key of one of the two tables can give: an entry, or a
    member that every object inherits from [Object.prototype]. *)
Inductive Looked : Type :=
| Icon (d : IconData)
| Inherited (key : string).

(** The own properties of a table. *)
Fixpoint own (key : string) (table : list (string * IconData))
    : option IconData :=
  match table with
  | [] => None
  | (k, d) :: rest => if String.eqb k key then Some d else own key rest
  end.

(** [table[key] = d] for a key that the table does not inherit. *)
Fixpoint setOwn (key : string) (d : IconData) (table : list (string * IconData))
    : list (string * IconData) :=
  match table with
  | [] => [(key, d)]
  | (k, d') :: rest =>
      if String.eqb k key then (key, d) :: rest
      else (k, d') :: setOwn key d rest
  end.

(** The module state: [TEMP_ICON_MAP] and the number of calls of
    [Math.random] made so far. *)
Record Env : Type := mkEnv {
  TEMP_ICON_MAP : list (string * IconData);
  drawn : nat
}.

(** [arr[Math.floor(r * arr.length)]], with the product taken exactly. *)
Definition pick (arr : list string) (r : Q) : option string :=
  let i := Qfloor (r * inject_Z (Z.of_nat (length arr))) in
  if (i <? 0)%Z then None else nth_error arr (Z.to_nat i).

Section IconData.

(** The successive results of [Math.random()]. *)
Variable random : nat -> Q.

(** [new RegExp(pattern).test(s)] *)
Variable regexTest : string -> string -> bool.

(** Whether [Object.prototype] has a member of that name. *)
Variable inheritedKey : string -> bool.

Definition getRandomColor (s : Env) : option string * Env :=
  (pick staticColors (random (drawn s)),
   {| TEMP_ICON_MAP := TEMP_ICON_MAP s; drawn := S (drawn s) |}).

Definition getRandomIcon (s : Env) : option string * Env :=
  (pick staticIcons (random (drawn s)),
   {| TEMP_ICON_MAP := TEMP_ICON_MAP s; drawn := S (drawn s) |}).

(** [table[key]] *)
Definition lookup (table : list (string * IconData)) (key : string)
    : option Looked :=
  match own key table with
  | Some d => Some (Icon d)
  | None => if inheritedKey key then Some (Inherited key) else None
  end.

(** The [forEach] over [Object.keys(EVENT_ICON_MAP)]: a later matching key
    overwrites [result]. *)
Definition matchKnown (eventName : string) : option Looked :=
  fold_left
    (fun result x =>
       if regexTest x eventName then lookup EVENT_ICON_MAP x else result)
    (map fst EVENT_ICON_MAP) None.

Definition getIconData (eventName : string) (s : Env) : option Looked * Env :=
  let result := matchKnown eventName in
  match result, lookup (TEMP_ICON_MAP s) eventName with
  | None, None =>
      let (icon, s) := getRandomIcon s in
      let (colour, s) := getRandomColor s in
      let generated := {| name := icon; color := colour |} in
      (Some (Icon generated),
       {| TEMP_ICON_MAP := setOwn eventName generated (TEMP_ICON_MAP s);
          drawn := drawn s |})
  | None, Some remembered => (Some remembered, s)
  | Some known, _ => (Some known, s)
  end.

(** The state after looking up each of [eventNames] in turn. *)
Definition lookedUp (eventNames : list string) (s : Env) : Env :=
  fold_left (fun s eventName => snd (getIconData eventName s)) eventNames s.

End IconData.

End Icons.

Import Timeline.

(** ** Vocabulary of the properties *)

(** A buffer is newest-first when no event is older than one that follows it. *)
Definition notOlder (a b : TapeEvent) : bool :=
  negb (lt (timestamp a) (timestamp b)).

Fixpoint nonIncreasing (buf : list TapeEvent) : bool :=
  match buf with
  | [] => true
  | e :: rest => forallb (notOlder e) rest && nonIncreasing rest
  end.

Definition validTimestamps (buf : list TapeEvent) : bool :=
  forallb (fun e => isValid (timestamp e)) buf.

(** The number of leading items that are strictly newer than [event]: where
    the insertion scan stops. *)
Fixpoint scanIndex (event : TapeEvent) (buf : list TapeEvent) : nat :=
  match buf with
  | [] => 0
  | item :: rest =>
      if gt (timestamp item) (timestamp event)
      then S (scanIndex event rest) else 0
  end.

(** The four branches of [enqueueEvent] as a function of the buffer that the
    eviction loop leaves behind. *)
Definition insertOrdered (event : TapeEvent) (buf : list TapeEvent)
    : list TapeEvent :=
  match buf with
  | [] => [event]
  | first :: _ =>
      if lt (timestamp first) (timestamp event) then event :: buf
      else if gt (timestamp (last buf first)) (timestamp event)
           then buf ++ [event]
           else splice (scanIndex event buf) event buf
  end.

(** [needle] occurs in [s]. *)
Definition contains (needle s : string) : Prop :=
  exists pre post : string, s = (pre ++ needle ++ post)%string.

(** Requests that reach the network: the historical fetch and the opening
    of a live connection. *)
Definition isNetworkCall (e : Effect) : bool :=
  match e with
  | Fetch _ => true
  | EventSourceOpen _ _ => true
  | _ => false
  end.

Definition networkCalls (tr : list Effect) : nat :=
  length (List.filter isNetworkCall tr).

(** A message of the wire contract: an object whose [person], when present,
    is a string. *)
Definition isWireMessage (m : JSON) : bool :=
  match m with
  | JObj fields =>
      match assoc "person" fields with
      | None => true
      | Some (JStr _) => true
      | Some _ => false
      end
  | _ => false
  end.

(** A [person] on which [indexOf] cannot be called: a truthy value that is
    neither a string nor an array. *)
Definition hasNoIndexOf (v : Value) : bool :=
  truthy v &&
  match v with
  | Some (JStr _) => false
  | Some (JArr _) => false
  | _ => true
  end.

(** What normalization makes of a value that has none of the five
    properties. *)
Definition blankEvent (fromISO : Value -> DateTime) : TapeEvent :=
  {| title := None;
     timestamp := fromISO None;
     id := None;
     person := None;
     data := None |}.

(** The [time] of a message is absent or a primitive value: what
    [DateTime.fromISO] turns into a string without running any code of the
    value itself. *)
Definition hasPlainTime (m : JSON) : bool :=
  match m with
  | JObj fields =>
      match assoc "time" fields with
      | Some (JObj _) => false
      | Some (JArr _) => false
      | _ => true
      end
  | _ => true
  end.

Definition isObject (m : JSON) : bool :=
  match m with
  | JObj _ => true
  | _ => false
  end.

(** Every open connection is the one that [this.eventSource] holds. *)
Definition currentOnly (w : World) : Prop :=
  forall h, isOpen h (trace w) = true -> eventSource (this w) = Some h.

(** A stand-in for [JSON.parse] that knows the text of one number. *)
Definition parseFortyTwo (text : string) : option JSON :=
  if String.eqb text "42" then Some (JNum 42) else None.

(** No member of [Object.prototype] is an own key of [TEMP_ICON_MAP]. *)
Definition noInheritedOwnKey (inheritedKey : string -> bool) (s : Icons.Env)
    : Prop :=
  forall key, inheritedKey key = true ->
              Icons.own key (Icons.TEMP_ICON_MAP s) = None.

(** Stand-ins for the environment of the icon table. *)
Module IconSample.

Definition occurs (needle s : string) : bool :=
  match String.index 0 needle s with
  | Some _ => true
  | None => false
  end.

(** [new RegExp(pattern).test(s)] for the four patterns of
    [EVENT_ICON_MAP]: three are plain texts, which match where they occur,
    and [NPS.*] matches where [NPS] occurs. *)
Definition regexTest (pattern s : string) : bool :=
  if String.eqb pattern "NPS.*" then occurs "NPS" s else occurs pattern s.

(** The members of [Object.prototype]. *)
Definition inheritedKey (key : string) : bool :=
  existsb (String.eqb key)
    ["constructor"; "hasOwnProperty"; "isPrototypeOf";
     "propertyIsEnumerable"; "toLocaleString"; "toString"; "valueOf";
     "__proto__"; "__defineGetter__"; "__defineSetter__";
     "__lookupGetter__"; "__lookupSetter__"].

(** [Math.random] returning 0.5, then 0.25, then 0.5 for ever. *)
Definition random (n : nat) : Q :=
  match n with
  | 1 => 1 # 4
  | _ => 1 # 2
  end.

Definition start : Icons.Env :=
  {| Icons.TEMP_ICON_MAP := []; Icons.drawn := 0 |}.

End IconSample.

(** ** Sample data for the examples *)

Module Sample.

(** A stand-in for [DateTime.fromISO] that knows two instants and rejects
    everything else.  The examples give it only these two instants and the
    word [yesterday], which luxon rejects as well. *)
Definition fromISO (v : Value) : DateTime :=
  match v with
  | Some (JStr s) =>
      if String.eqb s "2024-01-01T00:00:00Z" then Instant 1704067200000
      else if String.eqb s "2024-01-02T00:00:00Z" then Instant 1704153600000
      else InvalidDateTime
  | _ => InvalidDateTime
  end.

Definition quoted (s : string) : string :=
  let q := String (Ascii.ascii_of_nat 34) EmptyString in (q ++ s ++ q)%string.

Definition memberText (kv : string * string) : string :=
  (quoted (fst kv) ++ ":" ++ quoted (snd kv))%string.

Definition objectText (members : list (string * string)) : string :=
  ("{" ++ String.concat "," (map memberText members) ++ "}")%string.

Definition objectValue (members : list (string * string)) : JSON :=
  JObj (map (fun kv => (fst kv, JStr (snd kv))) members).

Definition visit : list (string * string) :=
  [("type", "Page Visit"); ("time", "2024-01-02T00:00:00Z"); ("id", "2")].

Definition undatedVisit : list (string * string) :=
  [("type", "Page Visit"); ("time", "yesterday"); ("id", "3")].

(** A stand-in for [JSON.parse] that knows the text of one message and
    rejects everything else.  The examples give it only that text and the
    keep-alive [ping], which is not JSON. *)
Definition JSON_parse (text : string) : option JSON :=
  if String.eqb text (objectText visit) then Some (objectValue visit)
  else None.

Definition visitEvent : TapeEvent :=
  {| title := Some (JStr "Page Visit");
     timestamp := Instant 1704153600000;
     id := Some (JStr "2");
     person := None;
     data := None |}.

Definition at_ (ms : Z) : TapeEvent :=
  {| title := Some (JStr "Page Visit");
     timestamp := Instant ms;
     id := None;
     person := None;
     data := None |}.

Definition undated : TapeEvent :=
  {| title := Some (JStr "Page Visit");
     timestamp := InvalidDateTime;
     id := None;
     person := None;
     data := None |}.

Definition element (mode : Mode) (stream : string) (max : Z)
    (buf : list TapeEvent) : ELEMENT :=
  {| tapeEvents := buf;
     baseURL := "https://trycjaas.exp.bz";
     type := mode;
     filter := undefined;
     streamId := str stream;
     pagination := null;
     limit := max;
     eventSource := None |}.

Definition world (el : ELEMENT) : World := {| this := el; trace := [] |}.

End Sample.

(** The text of a message whose [person] is a number, and a stand-in for
    [JSON.parse] that knows this text beside that of [Sample.JSON_parse]. *)
Definition numericPersonText : string :=
  ("{" ++ Sample.quoted "person" ++ ":42}")%string.

Definition parseWithNumericPerson (text : string) : option JSON :=
  if String.eqb text numericPersonText
  then Some (JObj [("person", JNum 42)])
  else Sample.JSON_parse text.

(** ** The monad and the loops *)

Lemma while_unfold {S : Type} (fuel : nat) (cond : S -> result bool)
    (body : S -> result S) (s : S) :
  while (Datatypes.S fuel) cond body s =
  (c <- cond s ;; if c then bind (body s) (while fuel cond body) else Ok s).
Proof. reflexivity. Qed.

Lemma setTapeEvents_same (el : ELEMENT) :
  setTapeEvents (tapeEvents el) el = el.
Proof. destruct el; reflexivity. Qed.

Lemma setTapeEvents_twice (a b : list TapeEvent) (el : ELEMENT) :
  setTapeEvents a (setTapeEvents b el) = setTapeEvents a el.
Proof. reflexivity. Qed.

(** *** The eviction loop *)

Lemma evict_idle (fuel : nat) (el : ELEMENT) :
  overCapacity el = false -> evict (S fuel) el = Ok el.
Proof.
  intros H. unfold evict. rewrite while_unfold. simpl. now rewrite H.
Qed.

Lemma evict_step (fuel : nat) (el : ELEMENT) :
  overCapacity el = true ->
  evict (S fuel) el = evict fuel (dequeuePastOneEvent el).
Proof.
  intros H. unfold evict. rewrite while_unfold. simpl. now rewrite H.
Qed.

(** Whatever the loop returns is the buffer without some of its leading,
    that is newest, elements. *)
Lemma evict_drops_from_head (fuel : nat) :
  forall el el', evict fuel el = Ok el' ->
  exists k, el' = setTapeEvents (skipn k (tapeEvents el)) el /\
            overCapacity el' = false.
Proof.
  induction fuel as [|fuel IH]; intros el el' H.
  - discriminate.
  - destruct (overCapacity el) eqn:E.
    + rewrite (evict_step _ _ E) in H.
      destruct (IH _ _ H) as [k [-> Hk]].
      exists (S k). split; [|exact Hk].
      unfold dequeuePastOneEvent. rewrite setTapeEvents_twice. simpl.
      destruct (tapeEvents el); [now destruct k|reflexivity].
    + rewrite (evict_idle _ _ E) in H. injection H as <-.
      exists 0. simpl. now rewrite setTapeEvents_same.
Qed.

Lemma overCapacity_not_livestream (el : ELEMENT) :
  isLivestream (type el) = false -> overCapacity el = false.
Proof. intros H. unfold overCapacity. rewrite H. apply andb_false_r. Qed.

(** With a positive limit the loop returns, having brought the length
    strictly below the limit. *)
Lemma evict_livestream (buf : list TapeEvent) :
  forall fuel el,
  tapeEvents el = buf -> isLivestream (type el) = true ->
  (1 <= limit el)%Z -> length buf < fuel ->
  exists k, evict fuel el = Ok (setTapeEvents (skipn k buf) el) /\
            (Z.of_nat (length (skipn k buf)) < limit el)%Z.
Proof.
  induction buf as [|x rest IH]; intros fuel el Hb Hm Hl Hf;
    (destruct fuel as [|fuel]; [inversion Hf|]).
  - exists 0. split; [|simpl; lia].
    rewrite evict_idle.
    + simpl. now rewrite <- Hb, setTapeEvents_same.
    + unfold overCapacity. rewrite Hb. simpl.
      apply andb_false_intro1. rewrite Z.geb_leb. apply Z.leb_gt. lia.
  - destruct (overCapacity el) eqn:E.
    + rewrite (evict_step _ _ E).
      destruct (IH fuel (dequeuePastOneEvent el)) as [k [Hk Hlen]].
      * unfold dequeuePastOneEvent. simpl. now rewrite Hb.
      * exact Hm.
      * exact Hl.
      * simpl in Hf. lia.
      * exists (S k). split; [|exact Hlen].
        rewrite Hk. unfold dequeuePastOneEvent.
        now rewrite setTapeEvents_twice.
    + exists 0. rewrite (evict_idle _ _ E). split.
      * simpl. now rewrite <- Hb, setTapeEvents_same.
      * unfold overCapacity in E. rewrite Hm, andb_true_r, Hb in E.
        simpl skipn. rewrite Z.geb_leb in E. apply Z.leb_gt in E. exact E.
Qed.

(** With a limit of zero or less the loop never ends in [livestream] mode:
    [shift] leaves the empty array empty and the test stays true. *)
Lemma evict_diverges (fuel : nat) :
  forall el, isLivestream (type el) = true -> (limit el <= 0)%Z ->
  evict fuel el = OutOfFuel.
Proof.
  induction fuel as [|fuel IH]; intros el Hm Hl; [reflexivity|].
  rewrite evict_step.
  - apply IH; assumption.
  - unfold overCapacity. rewrite Hm, andb_true_r.
    rewrite Z.geb_leb. apply Z.leb_le. lia.
Qed.

(** *** The insertion scan *)

Lemma last_cons_cons {A : Type} (x y d : A) (l : list A) :
  last (x :: y :: l) d = last (y :: l) d.
Proof. reflexivity. Qed.

Lemma nth_error_last {A : Type} (l : list A) (x d : A) :
  nth_error (x :: l) (length (x :: l) - 1) = Some (last (x :: l) d).
Proof.
  revert x. induction l as [|y l IH]; intros x; [reflexivity|].
  rewrite last_cons_cons, <- IH. simpl. now rewrite Nat.sub_0_r.
Qed.

Lemma nth_error_middle {A : Type} (pre suf : list A) (x : A) :
  nth_error (pre ++ x :: suf) (length pre) = Some x.
Proof.
  rewrite nth_error_app2 by lia. now rewrite Nat.sub_diag.
Qed.

(** The scan, started at the boundary between [pre] and [suf], stops inside
    [suf] as soon as the last item of [suf] does not pass the timestamp
    test; it has then read one index per item passed over. *)
Lemma scan_from (event d : TapeEvent) (suf : list TapeEvent) :
  forall pre fuel rs,
  suf <> [] ->
  gt (timestamp (last suf d)) (timestamp event) = false ->
  length suf <= fuel ->
  while fuel (scanCond (pre ++ suf) event) (scanBody (pre ++ suf))
    {| currentIndex := length pre;
       currentItem := nth_error (pre ++ suf) (length pre);
       reads := rs |}
  = Ok {| currentIndex := length pre + scanIndex event suf;
          currentItem :=
            nth_error (pre ++ suf) (length pre + scanIndex event suf);
          reads := rs ++ seq (S (length pre)) (scanIndex event suf) |}
  /\ scanIndex event suf < length suf.
Proof.
  induction suf as [|x rest IH]; intros pre fuel rs Hne Hlast Hfuel;
    [contradiction|].
  destruct fuel as [|fuel]; [simpl in Hfuel; lia|].
  rewrite while_unfold. unfold scanCond at 1. simpl currentItem.
  rewrite nth_error_middle. simpl timestampOf. simpl bind.
  simpl scanIndex.
  destruct (gt (timestamp x) (timestamp event)) eqn:G.
  - assert (Hin : (length pre <? length (pre ++ x :: rest)) = true).
    { apply Nat.ltb_lt. rewrite length_app. simpl. lia. }
    simpl currentIndex. rewrite Hin. simpl andb. cbv iota.
    destruct rest as [|y rest'].
    { simpl in Hlast. congruence. }
    rewrite last_cons_cons in Hlast.
    unfold scanBody at 1. simpl bind. simpl currentIndex. simpl reads.
    specialize (IH (pre ++ [x]) fuel (rs ++ [length pre + 1])).
    rewrite <- app_assoc in IH. simpl app in IH.
    rewrite length_app in IH. simpl length in IH.
    destruct IH as [IH1 IH2]; [discriminate|exact Hlast|simpl in *; lia|].
    split; [|simpl length; lia].
    etransitivity; [exact IH1|].
    replace (length pre + 1 + scanIndex event (y :: rest'))
      with (length pre + S (scanIndex event (y :: rest'))) by lia.
    rewrite <- app_assoc. simpl app.
    replace (length pre + 1) with (S (length pre)) by lia.
    reflexivity.
  - simpl andb. cbv iota. rewrite Nat.add_0_r, app_nil_r, nth_error_middle.
    split; [reflexivity|simpl; lia].
Qed.

Lemma scan_spec (fuel : nat) (buf : list TapeEvent) (event d : TapeEvent) :
  buf <> [] ->
  gt (timestamp (last buf d)) (timestamp event) = false ->
  length buf <= fuel ->
  scan fuel buf event
  = Ok {| currentIndex := scanIndex event buf;
          currentItem := nth_error buf (scanIndex event buf);
          reads := seq 0 (S (scanIndex event buf)) |}
  /\ scanIndex event buf < length buf.
Proof.
  intros Hne Hlast Hfuel.
  exact (scan_from event d buf [] fuel [0] Hne Hlast Hfuel).
Qed.

(** *** [enqueueEvent] after the eviction loop *)

Lemma enqueueEvent_spec (fuel : nat) (el el1 : ELEMENT) (event : TapeEvent) :
  evict fuel el = Ok el1 ->
  length (tapeEvents el1) <= fuel ->
  enqueueEvent fuel el event
  = Ok (setTapeEvents (insertOrdered event (tapeEvents el1)) el1).
Proof.
  intros Hev Hfuel. unfold enqueueEvent. rewrite Hev. simpl bind.
  destruct (tapeEvents el1) as [|first rest] eqn:Hbuf; [reflexivity|].
  change (length (first :: rest) =? 0) with false. cbv iota.
  simpl nth_error at 1. simpl timestampOf at 1. simpl bind.
  unfold insertOrdered.
  destruct (lt (timestamp first) (timestamp event)); [reflexivity|].
  change (length rest - 0) with (length (first :: rest) - 1).
  rewrite (nth_error_last rest first first). cbn [timestampOf bind].
  destruct (gt (timestamp (last (first :: rest) first)) (timestamp event))
    eqn:G; [reflexivity|].
  destruct (scan_spec fuel (first :: rest) event first) as [-> _];
    [discriminate|exact G|exact Hfuel|].
  reflexivity.
Qed.

(** *** Splicing *)

Lemma splice_length {A : Type} (i : nat) (x : A) (l : list A) :
  length (splice i x l) = S (length l).
Proof.
  unfold splice. rewrite length_app. simpl.
  rewrite <- (firstn_skipn i l) at 3. rewrite length_app. lia.
Qed.

Lemma splice_In {A : Type} (i : nat) (x y : A) (l : list A) :
  In y (splice i x l) <-> y = x \/ In y l.
Proof.
  unfold splice. rewrite in_app_iff. simpl.
  rewrite <- (firstn_skipn i l) at 3. rewrite in_app_iff.
  intuition congruence.
Qed.

Lemma splice_0 {A : Type} (x : A) (l : list A) : splice 0 x l = x :: l.
Proof. reflexivity. Qed.

Lemma splice_S {A : Type} (i : nat) (x y : A) (l : list A) :
  splice (S i) x (y :: l) = y :: splice i x l.
Proof. reflexivity. Qed.

Lemma splice_end {A : Type} (x : A) (l : list A) :
  splice (length l) x l = l ++ [x].
Proof.
  unfold splice. now rewrite firstn_all, skipn_all.
Qed.

Lemma scanIndex_le (event : TapeEvent) (buf : list TapeEvent) :
  scanIndex event buf <= length buf.
Proof.
  induction buf as [|x rest IH]; simpl; [lia|].
  destruct (gt _ _); lia.
Qed.

(** Every branch of [enqueueEvent] puts the event somewhere into the buffer
    left by the eviction loop and moves nothing else. *)
Lemma insertOrdered_splice (event : TapeEvent) (buf : list TapeEvent) :
  exists i, i <= length buf /\ insertOrdered event buf = splice i event buf.
Proof.
  unfold insertOrdered. destruct buf as [|first rest].
  - exists 0. split; [lia|reflexivity].
  - destruct (lt _ _).
    + exists 0. split; [lia|reflexivity].
    + destruct (gt _ _).
      * exists (length (first :: rest)). split; [lia|].
        now rewrite splice_end.
      * exists (scanIndex event (first :: rest)).
        split; [apply scanIndex_le|reflexivity].
Qed.

Lemma insertOrdered_length (event : TapeEvent) (buf : list TapeEvent) :
  length (insertOrdered event buf) = S (length buf).
Proof.
  destruct (insertOrdered_splice event buf) as [i [_ ->]].
  apply splice_length.
Qed.

Lemma insertOrdered_In (event e : TapeEvent) (buf : list TapeEvent) :
  In e (insertOrdered event buf) <-> e = event \/ In e buf.
Proof.
  destruct (insertOrdered_splice event buf) as [i [_ ->]].
  apply splice_In.
Qed.

(** *** Order *)

Lemma gt_lt (a b : DateTime) : gt a b = lt b a.
Proof.
  destruct a, b; simpl; try reflexivity. apply Z.gtb_ltb.
Qed.

Lemma nonIncreasing_cons (e : TapeEvent) (rest : list TapeEvent) :
  nonIncreasing (e :: rest) = true <->
  (forall x, In x rest -> notOlder e x = true) /\ nonIncreasing rest = true.
Proof.
  simpl. rewrite andb_true_iff, forallb_forall. reflexivity.
Qed.

Lemma nonIncreasing_app (l1 l2 : list TapeEvent) :
  nonIncreasing (l1 ++ l2) = true <->
  nonIncreasing l1 = true /\ nonIncreasing l2 = true /\
  (forall x y, In x l1 -> In y l2 -> notOlder x y = true).
Proof.
  induction l1 as [|a l1 IH].
  - simpl. intuition.
  - rewrite <- app_comm_cons, !nonIncreasing_cons, IH. split.
    + intros [Ha [H1 [H2 H12]]]. repeat split; trivial.
      * intros x Hx. apply Ha, in_or_app. now left.
      * intros x y [<-|Hx] Hy; [apply Ha, in_or_app; now right|now apply H12].
    + intros [[Ha H1] [H2 H12]]. repeat split; trivial.
      * intros x Hx. apply in_app_or in Hx as [Hx|Hx]; [now apply Ha|].
        apply H12; [now left|exact Hx].
      * intros x y Hx Hy. apply H12; [now right|exact Hy].
Qed.

Lemma nonIncreasing_tl (buf : list TapeEvent) :
  nonIncreasing buf = true -> nonIncreasing (tl buf) = true.
Proof.
  destruct buf; [trivial|]. rewrite nonIncreasing_cons. tauto.
Qed.

Lemma nonIncreasing_skipn (k : nat) (buf : list TapeEvent) :
  nonIncreasing buf = true -> nonIncreasing (skipn k buf) = true.
Proof.
  revert buf. induction k as [|k IH]; intros buf H; [exact H|].
  destruct buf; [exact H|]. simpl. apply IH.
  now apply nonIncreasing_cons in H.
Qed.

Lemma validTimestamps_forall (buf : list TapeEvent) :
  validTimestamps buf = true <->
  forall e, In e buf -> isValid (timestamp e) = true.
Proof. apply forallb_forall. Qed.

Lemma validTimestamps_skipn (k : nat) (buf : list TapeEvent) :
  validTimestamps buf = true -> validTimestamps (skipn k buf) = true.
Proof.
  rewrite !validTimestamps_forall. intros H e He. apply H.
  rewrite <- (firstn_skipn k buf). apply in_or_app. now right.
Qed.

(** On valid instants the comparisons are those of the integers. *)
Ltac instants :=
  unfold notOlder in *;
  repeat match goal with
  | H : isValid (timestamp ?e) = true |- _ =>
      let t := fresh "t" in
      let E := fresh "E" in
      remember (timestamp e) as t eqn:E in *; clear E;
      destruct t; [clear H|discriminate H]
  end;
  rewrite ?gt_lt in *; simpl lt in *;
  repeat match goal with
  | H : negb _ = true |- _ => apply negb_true_iff in H
  | H : (_ <? _)%Z = true |- _ => apply Z.ltb_lt in H
  | H : (_ <? _)%Z = false |- _ => apply Z.ltb_ge in H
  | |- negb _ = true => apply negb_true_iff
  | |- (_ <? _)%Z = true => apply Z.ltb_lt
  | |- (_ <? _)%Z = false => apply Z.ltb_ge
  end;
  try lia.

Lemma notOlder_trans (a b c : TapeEvent) :
  isValid (timestamp a) = true -> isValid (timestamp b) = true ->
  isValid (timestamp c) = true ->
  notOlder a b = true -> notOlder b c = true -> notOlder a c = true.
Proof. intros Ha Hb Hc Hab Hbc. instants. Qed.

Lemma notOlder_last (d : TapeEvent) (buf : list TapeEvent) :
  validTimestamps buf = true -> nonIncreasing buf = true ->
  forall x, In x buf -> notOlder x (last buf d) = true.
Proof.
  induction buf as [|a rest IH]; intros Hv Hs x Hx; [destruct Hx|].
  apply nonIncreasing_cons in Hs as [Ha Hs].
  assert (Hva : isValid (timestamp a) = true).
  { apply (proj1 (validTimestamps_forall _) Hv). now left. }
  destruct rest as [|b rest'].
  - destruct Hx as [<-|[]]. simpl. instants.
  - rewrite last_cons_cons. destruct Hx as [<-|Hx].
    + apply Ha. clear. induction rest' as [|c r IHr] in b |- *.
      * now left.
      * rewrite last_cons_cons. right. apply IHr.
    + apply IH; trivial.
      apply validTimestamps_forall. intros e He.
      apply (proj1 (validTimestamps_forall _) Hv). now right.
Qed.

Lemma splice_scanIndex_sorted (event : TapeEvent) (buf : list TapeEvent) :
  isValid (timestamp event) = true ->
  validTimestamps buf = true -> nonIncreasing buf = true ->
  nonIncreasing (splice (scanIndex event buf) event buf) = true.
Proof.
  intros Hve. induction buf as [|a rest IH]; intros Hv Hs; [reflexivity|].
  pose proof (proj1 (validTimestamps_forall _) Hv) as Hall.
  assert (Hva : isValid (timestamp a) = true) by (apply Hall; now left).
  assert (Hvr : validTimestamps rest = true).
  { apply validTimestamps_forall. intros e He. apply Hall. now right. }
  apply nonIncreasing_cons in Hs as [Ha Hs].
  simpl scanIndex. destruct (gt (timestamp a) (timestamp event)) eqn:G.
  - rewrite splice_S. apply nonIncreasing_cons. split; [|now apply IH].
    intros x Hx. apply splice_In in Hx as [->|Hx]; [|now apply Ha].
    instants.
  - rewrite splice_0. apply nonIncreasing_cons. split.
    + intros x [<-|Hx]; [instants|].
      apply notOlder_trans with a; trivial.
      * apply Hall. now right.
      * instants.
      * now apply Ha.
    + apply nonIncreasing_cons. now split.
Qed.

(** Inserting an event with a valid timestamp into a newest-first buffer of
    valid timestamps leaves it newest-first. *)
Lemma insertOrdered_sorted (event : TapeEvent) (buf : list TapeEvent) :
  isValid (timestamp event) = true ->
  validTimestamps buf = true -> nonIncreasing buf = true ->
  nonIncreasing (insertOrdered event buf) = true.
Proof.
  intros Hve Hv Hs. unfold insertOrdered.
  destruct buf as [|first rest]; [reflexivity|].
  pose proof (proj1 (validTimestamps_forall _) Hv) as Hall.
  assert (Hvf : isValid (timestamp first) = true) by (apply Hall; now left).
  destruct (lt (timestamp first) (timestamp event)) eqn:L.
  - apply nonIncreasing_cons. split; [|exact Hs].
    apply nonIncreasing_cons in Hs as [Hf _].
    intros x [<-|Hx]; [instants|].
    pose proof (Hf x Hx) as Hfx.
    assert (Hvx : isValid (timestamp x) = true) by (apply Hall; now right).
    instants.
  - destruct (gt (timestamp (last (first :: rest) first)) (timestamp event))
      eqn:G.
    + apply nonIncreasing_app. repeat split; trivial.
      intros x y Hx [<-|[]].
      pose proof (notOlder_last first _ Hv Hs x Hx) as Hxl.
      assert (Hvx : isValid (timestamp x) = true) by now apply Hall.
      assert (Hvl : isValid (timestamp (last (first :: rest) first)) = true).
      { apply Hall. clear. generalize first at 1 3.
        induction rest as [|c r IHr]; intros a; [now left|].
        rewrite last_cons_cons. right. apply IHr. }
      revert Hxl G Hvl. generalize (last (first :: rest) first).
      intros l Hxl G Hvl. instants.
    + now apply splice_scanIndex_sorted.
Qed.

Lemma insertOrdered_valid (event : TapeEvent) (buf : list TapeEvent) :
  isValid (timestamp event) = true -> validTimestamps buf = true ->
  validTimestamps (insertOrdered event buf) = true.
Proof.
  rewrite !validTimestamps_forall. intros Hve Hv e He.
  apply insertOrdered_In in He as [->|He]; [exact Hve|now apply Hv].
Qed.

(** *** Whole calls of [enqueueEvent] *)

Lemma enqueueEvent_no_eviction (fuel : nat) (el : ELEMENT) (event : TapeEvent) :
  isLivestream (type el) = false ->
  length (tapeEvents el) < fuel ->
  enqueueEvent fuel el event
  = Ok (setTapeEvents (insertOrdered event (tapeEvents el)) el).
Proof.
  intros Hm Hf. destruct fuel as [|fuel]; [inversion Hf|].
  apply enqueueEvent_spec; [|lia].
  apply evict_idle, overCapacity_not_livestream, Hm.
Qed.

Lemma enqueueEvent_livestream (fuel : nat) (el : ELEMENT) (event : TapeEvent) :
  isLivestream (type el) = true -> (1 <= limit el)%Z ->
  length (tapeEvents el) < fuel ->
  exists k,
    enqueueEvent fuel el event
    = Ok (setTapeEvents (insertOrdered event (skipn k (tapeEvents el))) el)
    /\ (Z.of_nat (length (skipn k (tapeEvents el))) < limit el)%Z.
Proof.
  intros Hm Hl Hf.
  destruct (evict_livestream (tapeEvents el) fuel el eq_refl Hm Hl Hf)
    as [k [Hk Hlen]].
  exists k. split; [|exact Hlen].
  rewrite (enqueueEvent_spec _ _ _ _ Hk); [reflexivity|].
  simpl. rewrite length_skipn. lia.
Qed.

Lemma enqueueEvent_returns (fuel : nat) (el : ELEMENT) (event : TapeEvent) :
  isLivestream (type el) = false \/ (1 <= limit el)%Z ->
  length (tapeEvents el) < fuel ->
  exists k,
    enqueueEvent fuel el event
    = Ok (setTapeEvents (insertOrdered event (skipn k (tapeEvents el))) el).
Proof.
  intros Hc Hf. destruct (isLivestream (type el)) eqn:Hm.
  - destruct Hc as [Hc|Hl]; [discriminate|].
    destruct (enqueueEvent_livestream fuel el event Hm Hl Hf) as [k [Hk _]].
    now exists k.
  - exists 0. now apply enqueueEvent_no_eviction.
Qed.

(** In [livestream] mode with a positive limit a call returns with at most
    [limit] events in the buffer. *)
Lemma enqueueEvent_capacity (fuel : nat) (el : ELEMENT) (event : TapeEvent) :
  isLivestream (type el) = true -> (1 <= limit el)%Z ->
  length (tapeEvents el) < fuel ->
  exists el', enqueueEvent fuel el event = Ok el' /\
              (Z.of_nat (length (tapeEvents el')) <= limit el)%Z.
Proof.
  intros Hm Hl Hf.
  destruct (enqueueEvent_livestream fuel el event Hm Hl Hf) as [k [Hk Hlen]].
  eexists. split; [exact Hk|].
  simpl. rewrite insertOrdered_length. lia.
Qed.

(** In [livestream] mode with a limit of zero or less a call never returns. *)
Lemma enqueueEvent_diverges (fuel : nat) (el : ELEMENT) (event : TapeEvent) :
  isLivestream (type el) = true -> (limit el <= 0)%Z ->
  enqueueEvent fuel el event = OutOfFuel.
Proof.
  intros Hm Hl. unfold enqueueEvent.
  now rewrite (evict_diverges fuel el Hm Hl).
Qed.

(** A batch of insertions that returns after every call, with order kept
    when all timestamps are valid. *)
Lemma enqueueAll_sorted (events : list TapeEvent) :
  forall fuel el,
  isLivestream (type el) = false \/ (1 <= limit el)%Z ->
  validTimestamps events = true ->
  validTimestamps (tapeEvents el) = true ->
  nonIncreasing (tapeEvents el) = true ->
  length (tapeEvents el) + length events <= fuel ->
  exists el', foldM (enqueueEvent fuel) el events = Ok el' /\
              validTimestamps (tapeEvents el') = true /\
              nonIncreasing (tapeEvents el') = true.
Proof.
  induction events as [|e events IH]; intros fuel el Hc Hve Hv Hs Hf.
  - exists el. now repeat split.
  - simpl in Hve. apply andb_true_iff in Hve as [Hvalid Hve].
    simpl in Hf.
    destruct (enqueueEvent_returns fuel el e Hc) as [k Hk]; [lia|].
    simpl foldM. rewrite Hk. simpl bind.
    apply IH; trivial; simpl.
    + apply insertOrdered_valid; trivial. now apply validTimestamps_skipn.
    + apply insertOrdered_sorted; trivial.
      * now apply validTimestamps_skipn.
      * now apply nonIncreasing_skipn.
    + rewrite insertOrdered_length, length_skipn. lia.
Qed.

(** Outside [livestream] mode a batch is inserted whole. *)
Lemma enqueueAll_no_eviction (events : list TapeEvent) :
  forall fuel el,
  isLivestream (type el) = false ->
  length (tapeEvents el) + length events <= fuel ->
  exists el', foldM (enqueueEvent fuel) el events = Ok el' /\
              length (tapeEvents el')
              = length (tapeEvents el) + length events /\
              (forall e, In e (tapeEvents el') <->
                         In e events \/ In e (tapeEvents el)).
Proof.
  induction events as [|e events IH]; intros fuel el Hm Hf.
  - exists el. repeat split; simpl; [lia|tauto|tauto].
  - simpl in Hf. simpl foldM.
    rewrite enqueueEvent_no_eviction by (trivial; lia). simpl bind.
    destruct (IH fuel (setTapeEvents (insertOrdered e (tapeEvents el)) el))
      as [el' [Hrun [Hlen Hin]]]; trivial.
    { simpl. rewrite insertOrdered_length. lia. }
    exists el'. split; [exact Hrun|]. split.
    + rewrite Hlen. simpl. rewrite insertOrdered_length. lia.
    + intros x. rewrite Hin. simpl. rewrite insertOrdered_In.
      intuition congruence.
Qed.

(** *** The normalizer *)

Section NormalizerFacts.

Variable fromISO : Value -> DateTime.

Lemma getTapeEventFromMessage_object (fields : list (string * JSON))
    (keep : bool) :
  Utils.notAnonymous (assoc "person" fields) = Ok keep ->
  Utils.getTapeEventFromMessage fromISO (JObj fields)
  = Ok {| title := assoc "type" fields;
          timestamp := fromISO (assoc "time" fields);
          id := assoc "id" fields;
          person := if keep then assoc "person" fields else None;
          data := if truthy (assoc "data" fields)
                  then assoc "data" fields else None |}.
Proof.
  intros H. unfold Utils.getTapeEventFromMessage. simpl. now rewrite H.
Qed.

Lemma isWireMessage_inv (m : JSON) :
  isWireMessage m = true ->
  exists fields keep,
    m = JObj fields /\ Utils.notAnonymous (assoc "person" fields) = Ok keep.
Proof.
  destruct m as [| | | | |fields]; try discriminate. simpl.
  intros H. exists fields. unfold Utils.notAnonymous.
  destruct (assoc "person" fields) as [[| | |s| |]|]; try discriminate;
    simpl.
  - destruct (negb (String.eqb s "")); eexists; split; reflexivity.
  - exists false. split; reflexivity.
Qed.

Lemma wire_messages_normalize (items : list JSON) :
  forallb isWireMessage items = true ->
  exists events,
    mapM (Utils.getTapeEventFromMessage fromISO) items = Ok events /\
    length events = length items /\
    (forall m, In m items ->
       exists e, Utils.getTapeEventFromMessage fromISO m = Ok e /\
                 In e events).
Proof.
  induction items as [|m items IH]; intros H.
  - exists []. repeat split. intros m [].
  - simpl in H. apply andb_true_iff in H as [Hm H].
    destruct (IH H) as [events [Hmap [Hlen Hin]]].
    destruct (isWireMessage_inv m Hm) as [fields [keep [-> Hkeep]]].
    pose proof (getTapeEventFromMessage_object fields keep Hkeep) as Hn.
    eexists. simpl mapM. rewrite Hn, Hmap. simpl bind.
    split; [reflexivity|]. split; [simpl; now rewrite Hlen|].
    intros m [<-|Hm'].
    + eexists. split; [exact Hn|now left].
    + destruct (Hin m Hm') as [e [He Hine]].
      exists e. split; [exact He|now right].
Qed.

End NormalizerFacts.

(** *** Substrings *)

Lemma prefix_iff (s1 : string) :
  forall s2, prefix s1 s2 = true <-> exists post, s2 = (s1 ++ post)%string.
Proof.
  induction s1 as [|a s1 IH]; intros s2.
  - destruct s2; simpl; split; trivial; intros _; eexists; reflexivity.
  - destruct s2 as [|b s2]; simpl.
    + split; [discriminate|]. intros [post H]. discriminate.
    + destruct (Ascii.ascii_dec a b) as [->|Hab].
      * rewrite IH. split; intros [post H]; exists post; congruence.
      * split; [discriminate|]. intros [post H]. congruence.
Qed.

Lemma contains_cons (needle : string) (b : Ascii.ascii) (s : string) :
  contains needle (String b s) <->
  prefix needle (String b s) = true \/ contains needle s.
Proof.
  rewrite prefix_iff. unfold contains. split.
  - intros [[|c pre] [post H]]; simpl in H.
    + left. now exists post.
    + right. exists pre, post. congruence.
  - intros [[post H]|[pre [post H]]].
    + exists EmptyString, post. exact H.
    + exists (String b pre), post. simpl. now rewrite H.
Qed.

Lemma index_0_cons (needle : string) (b : Ascii.ascii) (s : string) :
  String.index 0 needle (String b s)
  = if prefix needle (String b s) then Some 0
    else match String.index 0 needle s with
         | Some n => Some (S n)
         | None => None
         end.
Proof. reflexivity. Qed.

Lemma index_contains (needle s : string) :
  needle <> EmptyString ->
  match String.index 0 needle s with
  | Some _ => contains needle s
  | None => ~ contains needle s
  end.
Proof.
  intros Hne. induction s as [|b s IH].
  - simpl. destruct needle as [|a needle]; [contradiction|].
    intros [[|c pre] [post H]]; discriminate.
  - rewrite index_0_cons. destruct (prefix needle (String b s)) eqn:P.
    + apply contains_cons. now left.
    + destruct (String.index 0 needle s).
      * apply contains_cons. now right.
      * rewrite contains_cons, P. intros [H|H]; [discriminate|auto].
Qed.

(** [indexOf] answers [-1] exactly when the needle does not occur. *)
Lemma indexOf_contains (needle s : string) :
  needle <> EmptyString ->
  (indexOf s needle =? -1)%Z = true <-> ~ contains needle s.
Proof.
  intros Hne. pose proof (index_contains needle s Hne) as H.
  unfold indexOf. destruct (String.index 0 needle s) as [i|].
  - split; [|tauto]. intros E. apply Z.eqb_eq in E. lia.
  - split; trivial.
Qed.

(** ** The ordered buffer: capacity, order and the insertion scan *)

(** C1, evaluated on the scenario of the specification, [limit = 3] in
    [livestream] mode.  The events 5, 4, 3 arrive in that order and give the
    buffer [5, 4, 3].  When 6 arrives the eviction loop runs once, and
    [shift] removes the element at index 0, which is the newest event 5 and
    not the oldest event 3: the buffer becomes [6, 4, 3] where the scenario
    expects [6, 5, 4].  The length stays within the limit. *)
Theorem enqueueEvent_evicts_newest :
  foldM (enqueueEvent 4) (Sample.element livestream "A" 3 [])
        [Sample.at_ 5; Sample.at_ 4; Sample.at_ 3]
  = Ok (Sample.element livestream "A" 3
          [Sample.at_ 5; Sample.at_ 4; Sample.at_ 3])
  /\ enqueueEvent 4
       (Sample.element livestream "A" 3
          [Sample.at_ 5; Sample.at_ 4; Sample.at_ 3])
       (Sample.at_ 6)
     = Ok (Sample.element livestream "A" 3
             [Sample.at_ 6; Sample.at_ 4; Sample.at_ 3]).
Proof. split; reflexivity. Qed.

(** C2 as stated fails: an event whose timestamp is an invalid DateTime
    compares false with everything, is put at the head, and from then on
    hides the head from the comparisons.  After 5, an undated event, 3 and
    4 the buffer is [4, undated, 5, 3]: 4 stands before 5. *)
Lemma enqueueEvent_invalid_timestamp_breaks_order :
  foldM (enqueueEvent 4) (Sample.element livestream "A" 5 [])
        [Sample.at_ 5; Sample.undated; Sample.at_ 3; Sample.at_ 4]
  = Ok (Sample.element livestream "A" 5
          [Sample.at_ 4; Sample.undated; Sample.at_ 5; Sample.at_ 3])
  /\ nonIncreasing
       [Sample.at_ 4; Sample.undated; Sample.at_ 5; Sample.at_ 3] = false.
Proof. split; reflexivity. Qed.

(** C2, amended: for every sequence of events whose timestamps are all
    valid instants, inserted one after the other with [enqueueEvent] into
    the empty buffer, every call returns (the limit is positive whenever the
    mode is [livestream]) and after every call, that is after every prefix
    of the sequence, the buffer is sorted by timestamp in non-increasing
    order from head to tail. *)
Theorem enqueueEvent_keeps_order (fuel : nat) (el : ELEMENT)
    (events : list TapeEvent) (n : nat) :
  tapeEvents el = [] ->
  validTimestamps events = true ->
  isLivestream (type el) = false \/ (1 <= limit el)%Z ->
  length events <= fuel ->
  exists el',
    foldM (enqueueEvent fuel) el (firstn n events) = Ok el' /\
    nonIncreasing (tapeEvents el') = true.
Proof.
  intros Hempty Hvalid Hmode Hfuel.
  destruct (enqueueAll_sorted (firstn n events) fuel el) as [el' [Hrun [_ Hs]]].
  - exact Hmode.
  - apply validTimestamps_forall. intros e He.
    apply (proj1 (validTimestamps_forall _) Hvalid).
    rewrite <- (firstn_skipn n events). apply in_or_app. now left.
  - now rewrite Hempty.
  - now rewrite Hempty.
  - rewrite Hempty, length_firstn. simpl. lia.
  - now exists el'.
Qed.

Lemma enqueueEvent_keeps_order_witness :
  exists el',
    foldM (enqueueEvent 4) (Sample.element livestream "A" 3 [])
          (firstn 4 [Sample.at_ 4; Sample.at_ 5; Sample.at_ 3; Sample.at_ 4])
    = Ok el' /\
    nonIncreasing (tapeEvents el') = true.
Proof.
  apply (enqueueEvent_keeps_order 4 (Sample.element livestream "A" 3 [])
           [Sample.at_ 4; Sample.at_ 5; Sample.at_ 3; Sample.at_ 4] 4).
  - reflexivity.
  - reflexivity.
  - right. simpl. lia.
  - simpl. lia.
Defined.

(** C10: in the middle-insertion branch of [enqueueEvent], reached when the
    buffer is not empty, its first item is not older than the event and its
    last item is not newer, the scan returns with [currentIndex] at most
    the length of the buffer minus one, and the indices at which it has read
    [tapeEvents], namely 0 up to the final [currentIndex], are all within
    bounds.  The test on the last item alone stops the scan, so this holds
    whether or not the buffer is sorted. *)
Theorem scan_stays_in_bounds (fuel : nat) (buf : list TapeEvent)
    (event first last : TapeEvent) :
  nth_error buf 0 = Some first ->
  lt (timestamp first) (timestamp event) = false ->
  nth_error buf (length buf - 1) = Some last ->
  gt (timestamp last) (timestamp event) = false ->
  length buf <= fuel ->
  exists s,
    scan fuel buf event = Ok s /\
    currentIndex s <= length buf - 1 /\
    reads s = seq 0 (S (currentIndex s)) /\
    Forall (fun i => i < length buf) (reads s).
Proof.
  intros Hfirst _ Hlast Hgt Hfuel.
  destruct buf as [|a rest]; [discriminate|].
  rewrite (nth_error_last rest a a) in Hlast. injection Hlast as Hlast.
  destruct (scan_spec fuel (a :: rest) event a) as [Hscan Hidx].
  - discriminate.
  - rewrite <- Hlast in Hgt. exact Hgt.
  - exact Hfuel.
  - eexists. split; [exact Hscan|]. cbn [currentIndex reads].
    change (length (a :: rest)) with (S (length rest)) in *.
    split; [lia|]. split; [reflexivity|].
    apply Forall_forall. intros i Hi. apply in_seq in Hi. lia.
Qed.

Lemma scan_stays_in_bounds_witness :
  exists s,
    scan 4 [Sample.at_ 5; Sample.at_ 4; Sample.at_ 4; Sample.at_ 3]
         (Sample.at_ 4) = Ok s /\
    currentIndex s <= 4 - 1 /\
    reads s = seq 0 (S (currentIndex s)) /\
    Forall (fun i => i < 4) (reads s).
Proof.
  apply (scan_stays_in_bounds 4
           [Sample.at_ 5; Sample.at_ 4; Sample.at_ 4; Sample.at_ 3]
           (Sample.at_ 4) (Sample.at_ 5) (Sample.at_ 3));
    first [reflexivity | simpl; lia].
Defined.

(** ** The stream coordinator *)

Lemma networkCalls_app (tr1 tr2 : list Effect) :
  networkCalls (tr1 ++ tr2) = networkCalls tr1 + networkCalls tr2.
Proof. unfold networkCalls. now rewrite filter_app, length_app. Qed.

Lemma subscribeToStream_tapeEvents (w : World) :
  tapeEvents (this (subscribeToStream w)) = tapeEvents (this w).
Proof.
  destruct w as [[buf url mode f sid pag lim [h|]] tr]; now destruct mode.
Qed.

Lemma subscribeToStream_descriptor (w : World) :
  (streamId (this (subscribeToStream w)), filter (this (subscribeToStream w)),
   pagination (this (subscribeToStream w)), type (this (subscribeToStream w)))
  = (streamId (this w), filter (this w), pagination (this w), type (this w)).
Proof.
  destruct w as [[buf url mode f sid pag lim [h|]] tr]; now destruct mode.
Qed.

Lemma subscribeToStream_type (w : World) :
  type (this (subscribeToStream w)) = type (this w).
Proof.
  pose proof (subscribeToStream_descriptor w) as H. congruence.
Qed.

(** The requests of one call of [subscribeToStream], in order: the old
    connection is closed if there is one, the history is fetched in the two
    journey modes, a connection is opened in the two streaming modes. *)
Lemma subscribeToStream_trace (w : World) :
  trace (subscribeToStream w)
  = trace w
    ++ match eventSource (this w) with
       | Some h => [EventSourceClose h]
       | None => []
       end
    ++ (if isJourney (type (this w)) || isJourneyAndStream (type (this w))
        then [Fetch (journeyURL (this w))] else [])
    ++ (if negb (isJourney (type (this w)))
        then [EventSourceOpen
                (length (trace w)
                 + match eventSource (this w) with
                   | Some _ => 1
                   | None => 0
                   end
                 + (if isJourneyAndStream (type (this w)) then 1 else 0))
                (realTimeURL (this w))]
        else []).
Proof.
  destruct w as [[buf url mode f sid pag lim [h|]] tr]; destruct mode;
    unfold subscribeToStream, getJourney, emit, withThis; simpl;
    rewrite <- ?app_assoc, ?length_app; simpl;
    rewrite ?app_nil_r, ?Nat.add_0_r, <- ?Nat.add_assoc; reflexivity.
Qed.

Lemma subscribeToStream_calls (w : World) :
  networkCalls (trace (subscribeToStream w))
  = networkCalls (trace w)
    + match type (this w) with
      | journey => 1
      | livestream => 1
      | journey_and_stream => 2
      end.
Proof.
  rewrite subscribeToStream_trace, !networkCalls_app.
  destruct w as [[buf url mode f sid pag lim [h|]] tr]; now destruct mode.
Qed.

(** C6 as stated fails.  In [livestream] mode a first call of
    [subscribeToStream] opens a connection; a second call, with nothing
    changed in between, closes it and opens another one. *)
Lemma resubscribe_repeats_network_calls :
  let w1 := subscribeToStream (Sample.world (Sample.element livestream "A" 5 [])) in
  trace w1 = [EventSourceOpen 0 "https://trycjaas.exp.bz/real-time?A"]
  /\ trace (subscribeToStream w1)
     = [EventSourceOpen 0 "https://trycjaas.exp.bz/real-time?A";
        EventSourceClose 0;
        EventSourceOpen 2 "https://trycjaas.exp.bz/real-time?A"]
  /\ networkCalls (trace (subscribeToStream w1)) = 2.
Proof. repeat split. Qed.

(** C6, amended: [subscribeToStream] has no guard on the descriptor.  A
    second call, with the descriptor that the first call left unchanged and
    while the connection of the first call is still open, is not a no-op.
    It appends to the requests made so far, in this order: the closing of
    the connection held in [this.eventSource], which in the two streaming
    modes is the connection that the first call opened; one historical fetch
    of the journey URL in [journey] and [journey-and-stream] mode; the
    opening of one new live connection to the real-time URL in [livestream]
    and [journey-and-stream] mode.  So the second call adds one network
    request in [journey] and in [livestream] mode and two in
    [journey-and-stream] mode. *)
Theorem subscribeToStream_not_idempotent (w : World) :
  let w1 := subscribeToStream w in
  let closing :=
    match eventSource (this w1) with
    | Some h => [EventSourceClose h]
    | None => []
    end in
  (streamId (this w1), filter (this w1), pagination (this w1), type (this w1))
  = (streamId (this w), filter (this w), pagination (this w), type (this w))
  /\ trace (subscribeToStream w1)
     = trace w1 ++ closing
       ++ match type (this w) with
          | journey => [Fetch (journeyURL (this w))]
          | livestream =>
              [EventSourceOpen (length (trace w1) + 1) (realTimeURL (this w))]
          | journey_and_stream =>
              [Fetch (journeyURL (this w));
               EventSourceOpen (length (trace w1) + 2) (realTimeURL (this w))]
          end
  /\ (type (this w) <> journey ->
      exists h earlier,
        trace w1 = earlier ++ [EventSourceOpen h (realTimeURL (this w))] /\
        eventSource (this w1) = Some h /\
        closing = [EventSourceClose h])
  /\ networkCalls (trace (subscribeToStream w1))
     = networkCalls (trace w1)
       + match type (this w) with
         | journey => 1
         | livestream => 1
         | journey_and_stream => 2
         end.
Proof.
  intros w1 closing. split; [apply subscribeToStream_descriptor|].
  split; [|split].
  - unfold closing, w1.
    destruct w as [[buf url mode f sid pag lim [h|]] tr]; destruct mode;
      unfold subscribeToStream, getJourney, emit, withThis; simpl;
      rewrite <- ?app_assoc, ?length_app; simpl;
      rewrite ?Nat.add_0_r, <- ?Nat.add_assoc; reflexivity.
  - unfold closing, w1. intros Hmode.
    destruct w as [[buf url mode f sid pag lim [h|]] tr]; destruct mode;
      try (now destruct Hmode);
      unfold subscribeToStream, getJourney, emit, withThis; simpl;
      eexists; eexists; (split; [reflexivity|split; reflexivity]).
  - rewrite (subscribeToStream_calls w1). unfold w1.
    now rewrite subscribeToStream_type.
Qed.

(** C7: when [updated] is told that [streamId] has changed and [streamId]
    is now set, or that [filter] has changed from a different previous value
    while [streamId] is set, it empties the buffer and calls
    [subscribeToStream].  That call inserts nothing, so the buffer is empty
    when [updated] returns, before any response or message can be handled,
    and the requests of a subscription have been issued. *)
Theorem updated_resets_and_resubscribes
    (changedProperties : list (string * Attr)) (w : World) :
  truthyAttr (streamId (this w)) = true ->
  (exists oldValue, In ("streamId", oldValue) changedProperties) \/
  (exists oldValue, In ("filter", oldValue) changedProperties /\
                    strictEq (filter (this w)) oldValue = false) ->
  let cleared := emit RequestUpdate (withThis (setTapeEvents [] (this w)) w) in
  updated changedProperties w = subscribeToStream cleared /\
  tapeEvents (this (updated changedProperties w)) = [] /\
  networkCalls (trace w) < networkCalls (trace (updated changedProperties w)).
Proof.
  intros Hset Hchanged cleared.
  assert (Hflag : shouldResubscribe changedProperties (this w) = true).
  { unfold shouldResubscribe. apply existsb_exists.
    destruct Hchanged as [[old Hin]|[old [Hin Hneq]]].
    - exists ("streamId", old). split; [exact Hin|]. now rewrite Hset.
    - exists ("filter", old). split; [exact Hin|].
      rewrite Hset, Hneq. reflexivity. }
  assert (Hupd : updated changedProperties w = subscribeToStream cleared).
  { unfold updated. now rewrite Hflag. }
  split; [exact Hupd|]. rewrite Hupd. split.
  - now rewrite subscribeToStream_tapeEvents.
  - rewrite subscribeToStream_calls. unfold cleared. simpl trace.
    rewrite networkCalls_app. simpl. destruct (type (this w)); lia.
Qed.

Lemma updated_resets_and_resubscribes_witness :
  let w := Sample.world
             (Sample.element journey_and_stream "B" 5
                [Sample.at_ 5; Sample.at_ 4]) in
  let cleared := emit RequestUpdate (withThis (setTapeEvents [] (this w)) w) in
  updated [("streamId", str "A")] w = subscribeToStream cleared /\
  tapeEvents (this (updated [("streamId", str "A")] w)) = [] /\
  networkCalls (trace w)
  < networkCalls (trace (updated [("streamId", str "A")] w)).
Proof.
  apply (updated_resets_and_resubscribes [("streamId", str "A")]
           (Sample.world
              (Sample.element journey_and_stream "B" 5
                 [Sample.at_ 5; Sample.at_ 4]))).
  - reflexivity.
  - left. exists (str "A"). simpl. left. reflexivity.
Defined.

Section HandlerFacts.

Variable fromISO : Value -> DateTime.
Variable JSON_parse : string -> option JSON.

(** C9: a push message whose payload [JSON.parse] rejects leaves the
    element, and so the buffer, as it was, and the handler returns
    normally. *)
Theorem onmessage_ignores_malformed (fuel : nat) (event_data : string)
    (w : World) :
  JSON_parse event_data = None ->
  onmessage fromISO JSON_parse fuel event_data w = Ok w.
Proof.
  intros H. unfold onmessage. now rewrite H.
Qed.

End HandlerFacts.

Lemma onmessage_ignores_malformed_witness :
  let w := Sample.world
             (Sample.element livestream "A" 5 [Sample.at_ 5; Sample.at_ 4]) in
  onmessage Sample.fromISO Sample.JSON_parse 0 "ping" w = Ok w.
Proof.
  apply (onmessage_ignores_malformed Sample.fromISO Sample.JSON_parse 0 "ping").
  reflexivity.
Defined.

(** ** Messages: the live stream, the historical batch and the normalizer *)

(** C3 as stated fails.  In [journey-and-stream] mode with [limit = 1] and
    one event in the buffer, a live message is inserted and nothing is
    evicted: the buffer holds two events. *)
Lemma journey_and_stream_exceeds_limit :
  let el := Sample.element journey_and_stream "A" 1 [Sample.at_ 1704067200000] in
  exists el',
    onmessage Sample.fromISO Sample.JSON_parse 2
              (Sample.objectText Sample.visit) (Sample.world el)
    = Ok (Sample.world el') /\
    map timestamp (tapeEvents el')
    = [Instant 1704153600000; Instant 1704067200000] /\
    (limit el' < Z.of_nat (length (tapeEvents el')))%Z.
Proof.
  eexists. split; [vm_compute; reflexivity|]. split; [reflexivity|].
  simpl. lia.
Qed.

(** C4 as stated fails.  A message whose time is the word [yesterday] is
    normalized without any failure, into an event with an invalid
    timestamp, and the response handler puts that event into the buffer. *)
Lemma unparseable_time_is_inserted :
  let message := Sample.objectValue Sample.undatedVisit in
  exists event,
    Utils.getTapeEventFromMessage Sample.fromISO message = Ok event /\
    timestamp event = InvalidDateTime /\
    journeyResponse Sample.fromISO 1 (JArr [message])
                    (Sample.element journey "A" 5 [])
    = Ok (Sample.element journey "A" 5 [event]).
Proof.
  eexists. split; [vm_compute; reflexivity|]. split; reflexivity.
Qed.

(** C8 as stated fails on the empty string: it does not contain [anon],
    yet the test [message.person && ...] is false for it and the event gets
    no [person]. *)
Lemma empty_person_is_dropped :
  (indexOf "" "anon" = -1)%Z /\
  exists event,
    Utils.getTapeEventFromMessage Sample.fromISO
      (JObj [("type", JStr "Identify"); ("person", JStr "")]) = Ok event /\
    person event = None /\
    person event <> Some (JStr "").
Proof.
  split; [reflexivity|]. eexists. split; [vm_compute; reflexivity|].
  split; [reflexivity|discriminate].
Qed.

Section MessageFacts.

Variable fromISO : Value -> DateTime.
Variable JSON_parse : string -> option JSON.

(** C3, amended: when the mode is [journey-and-stream], an insertion
    coming from the live stream does not enforce the capacity bound.
    [enqueueEvent] evicts in [livestream] mode only: the event of the
    message is put into the buffer, every event already there stays, and
    the length grows by one whatever the limit. *)
Theorem onmessage_journey_and_stream_grows (fuel : nat)
    (event_data : string) (w : World) (message : JSON) (event : TapeEvent) :
  type (this w) = journey_and_stream ->
  JSON_parse event_data = Some message ->
  truthy (Some message) = true ->
  Utils.getTapeEventFromMessage fromISO message = Ok event ->
  length (tapeEvents (this w)) < fuel ->
  exists i,
    i <= length (tapeEvents (this w)) /\
    onmessage fromISO JSON_parse fuel event_data w
    = Ok (withThis
            (setTapeEvents (splice i event (tapeEvents (this w))) (this w))
            w) /\
    length (splice i event (tapeEvents (this w)))
    = S (length (tapeEvents (this w))).
Proof.
  intros Hmode Hparse Htruthy Hnorm Hfuel.
  destruct (insertOrdered_splice event (tapeEvents (this w)))
    as [i [Hi Hins]].
  exists i. split; [exact Hi|]. split; [|apply splice_length].
  unfold onmessage. rewrite Hparse, Htruthy, Hnorm. simpl bind.
  rewrite enqueueEvent_no_eviction; [|now rewrite Hmode|exact Hfuel].
  simpl bind. now rewrite Hins.
Qed.

(** C4, amended: a message whose time field is not parseable is
    normalized like any other, into an event whose timestamp is an invalid
    DateTime; nothing fails.  When the batch of a historical response is
    made of messages of the wire contract and the mode is one of the two
    journey modes, the handler returns with every message of the batch
    inserted, those with an unparseable time included. *)
Theorem journeyResponse_inserts_unparseable (fuel : nat) (el : ELEMENT)
    (items : list JSON) :
  isLivestream (type el) = false ->
  forallb isWireMessage items = true ->
  length (tapeEvents el) + length items <= fuel ->
  exists el',
    journeyResponse fromISO fuel (JArr items) el = Ok el' /\
    length (tapeEvents el') = length (tapeEvents el) + length items /\
    forall fields,
      In (JObj fields) items ->
      fromISO (assoc "time" fields) = InvalidDateTime ->
      exists event,
        Utils.getTapeEventFromMessage fromISO (JObj fields) = Ok event /\
        timestamp event = InvalidDateTime /\
        In event (tapeEvents el').
Proof.
  intros Hmode Hwire Hfuel.
  destruct (wire_messages_normalize fromISO items Hwire)
    as [events [Hmap [Hlen Hall]]].
  destruct (enqueueAll_no_eviction events fuel el Hmode)
    as [el' [Hrun [Hlen' Hin]]]; [lia|].
  exists el'. unfold journeyResponse. rewrite Hmap. simpl bind.
  split; [exact Hrun|]. split; [lia|].
  intros fields Hitem Htime.
  destruct (Hall _ Hitem) as [event [Hnorm Hev]].
  exists event. split; [exact Hnorm|]. split.
  - unfold Utils.getTapeEventFromMessage in Hnorm. simpl in Hnorm.
    destruct (Utils.notAnonymous (assoc "person" fields)); try discriminate.
    simpl in Hnorm. injection Hnorm as <-. exact Htime.
  - apply Hin. now left.
Qed.

(** C8, amended: for every raw message whose person field is a non-empty
    string, the normalized event has no [person] if that string contains
    [anon], and otherwise has the string itself as [person]. *)
Theorem person_kept_unless_anonymous (fields : list (string * JSON))
    (p : string) :
  assoc "person" fields = Some (JStr p) ->
  p <> "" ->
  exists event,
    Utils.getTapeEventFromMessage fromISO (JObj fields) = Ok event /\
    (contains "anon" p -> person event = None) /\
    (~ contains "anon" p -> person event = Some (JStr p)).
Proof.
  intros Hp Hne.
  assert (Hkeep : Utils.notAnonymous (assoc "person" fields)
                  = Ok (indexOf p "anon" =? -1)%Z).
  { rewrite Hp. unfold Utils.notAnonymous. simpl.
    apply String.eqb_neq in Hne. now rewrite Hne. }
  eexists. split; [exact (getTapeEventFromMessage_object _ _ _ Hkeep)|].
  simpl person. rewrite Hp.
  pose proof (indexOf_contains "anon" p) as Hc.
  destruct (indexOf p "anon" =? -1)%Z.
  - split; [|reflexivity]. intros Hin. exfalso.
    apply (proj1 (Hc ltac:(discriminate))); trivial.
  - split; [reflexivity|]. intros Hnot. exfalso.
    apply (proj2 (Hc ltac:(discriminate))) in Hnot. discriminate.
Qed.

End MessageFacts.

Lemma onmessage_journey_and_stream_grows_witness :
  let w := Sample.world
             (Sample.element journey_and_stream "A" 1
                [Sample.at_ 1704067200000]) in
  exists i,
    i <= length (tapeEvents (this w)) /\
    onmessage Sample.fromISO Sample.JSON_parse 2
              (Sample.objectText Sample.visit) w
    = Ok (withThis
            (setTapeEvents
               (splice i Sample.visitEvent (tapeEvents (this w))) (this w))
            w) /\
    length (splice i Sample.visitEvent (tapeEvents (this w)))
    = S (length (tapeEvents (this w))).
Proof.
  apply (onmessage_journey_and_stream_grows Sample.fromISO Sample.JSON_parse 2
           (Sample.objectText Sample.visit)
           (Sample.world
              (Sample.element journey_and_stream "A" 1
                 [Sample.at_ 1704067200000]))
           (Sample.objectValue Sample.visit) Sample.visitEvent).
  - reflexivity.
  - vm_compute. reflexivity.
  - reflexivity.
  - vm_compute. reflexivity.
  - simpl. lia.
Defined.

Lemma journeyResponse_inserts_unparseable_witness :
  let el := Sample.element journey "A" 5 [] in
  let items := [Sample.objectValue Sample.visit;
                Sample.objectValue Sample.undatedVisit] in
  exists el',
    journeyResponse Sample.fromISO 2 (JArr items) el = Ok el' /\
    length (tapeEvents el') = length (tapeEvents el) + length items /\
    forall fields,
      In (JObj fields) items ->
      Sample.fromISO (assoc "time" fields) = InvalidDateTime ->
      exists event,
        Utils.getTapeEventFromMessage Sample.fromISO (JObj fields)
        = Ok event /\
        timestamp event = InvalidDateTime /\
        In event (tapeEvents el').
Proof.
  apply (journeyResponse_inserts_unparseable Sample.fromISO 2
           (Sample.element journey "A" 5 [])
           [Sample.objectValue Sample.visit;
            Sample.objectValue Sample.undatedVisit]).
  - reflexivity.
  - reflexivity.
  - simpl. lia.
Defined.

Lemma person_kept_unless_anonymous_witness :
  exists event,
    Utils.getTapeEventFromMessage Sample.fromISO
      (JObj [("type", JStr "Identify"); ("person", JStr "alice")])
    = Ok event /\
    (contains "anon" "alice" -> person event = None) /\
    (~ contains "anon" "alice" -> person event = Some (JStr "alice")).
Proof.
  apply (person_kept_unless_anonymous Sample.fromISO
           [("type", JStr "Identify"); ("person", JStr "alice")] "alice").
  - reflexivity.
  - discriminate.
Defined.

(** ** Responses that arrive late *)

(** C5 as stated fails.  The history of stream [A] is requested; then
    [streamId] becomes [B], the buffer is emptied and the history of [B] is
    requested; then the response to the request for [A] arrives.  Its event
    is put into the buffer, which now shows stream [B]. *)
Lemma late_response_reaches_buffer :
  exists w,
    run Sample.fromISO Sample.JSON_parse 1
        (Sample.world (Sample.element journey "A" 5 []))
        [PropertiesUpdated [("streamId", null)];
         StreamIdAssigned (str "B");
         PropertiesUpdated [("streamId", str "A")];
         JourneyResponded "https://trycjaas.exp.bz/journey?A&$top=10"
                          (JArr [Sample.objectValue Sample.visit])]
    = Ok w /\
    streamId (this w) = str "B" /\
    trace w = [RequestUpdate;
               Fetch "https://trycjaas.exp.bz/journey?A&$top=10";
               RequestUpdate;
               Fetch "https://trycjaas.exp.bz/journey?B&$top=10"] /\
    tapeEvents (this w) = [Sample.visitEvent].
Proof.
  eexists. split; [vm_compute; reflexivity|]. repeat split.
Qed.

Section StaleResponses.

Variable fromISO : Value -> DateTime.
Variable JSON_parse : string -> option JSON.

(** C5, amended: a historical-fetch response that arrives after the
    descriptor has changed and the buffer has been emptied is not
    discarded.  The continuation of [getJourney] does not know which
    request it answers: whatever the URL of that request, the events of
    the response are normalized and inserted into the current buffer. *)
Theorem stale_response_is_inserted (fuel : nat) (w : World)
    (changedProperties : list (string * Attr)) (url : string)
    (items : list JSON) :
  shouldResubscribe changedProperties (this w) = true ->
  url <> journeyURL (this w) ->
  isLivestream (type (this w)) = false ->
  forallb isWireMessage items = true ->
  length items <= fuel ->
  exists w' events,
    run fromISO JSON_parse fuel w
        [PropertiesUpdated changedProperties;
         JourneyResponded url (JArr items)] = Ok w' /\
    mapM (Utils.getTapeEventFromMessage fromISO) items = Ok events /\
    length (tapeEvents (this w')) = length items /\
    (forall e, In e events -> In e (tapeEvents (this w'))).
Proof.
  intros Hflag _ Hmode Hwire Hfuel.
  assert (Hupd : updated changedProperties w
                 = subscribeToStream
                     (emit RequestUpdate
                        (withThis (setTapeEvents [] (this w)) w))).
  { unfold updated. now rewrite Hflag. }
  assert (Hbuf : tapeEvents (this (updated changedProperties w)) = []).
  { rewrite Hupd. now rewrite subscribeToStream_tapeEvents. }
  assert (Hty : type (this (updated changedProperties w)) = type (this w)).
  { rewrite Hupd. now rewrite subscribeToStream_type. }
  destruct (wire_messages_normalize fromISO items Hwire)
    as [events [Hmap [Hlen _]]].
  destruct (enqueueAll_no_eviction events fuel
              (this (updated changedProperties w)))
    as [el' [Hrun [Hlen' Hin]]].
  { now rewrite Hty. }
  { rewrite Hbuf. simpl. lia. }
  exists (withThis el' (updated changedProperties w)), events.
  split; [|split; [exact Hmap|split]].
  - unfold run. simpl foldM. unfold journeyResponse.
    rewrite Hmap. simpl bind. now rewrite Hrun.
  - simpl. rewrite Hlen', Hbuf. simpl. exact Hlen.
  - intros e He. simpl. apply Hin. now left.
Qed.

End StaleResponses.

Lemma stale_response_is_inserted_witness :
  let w := Sample.world (Sample.element journey "B" 5 [Sample.at_ 5]) in
  exists w' events,
    run Sample.fromISO Sample.JSON_parse 1 w
        [PropertiesUpdated [("streamId", str "A")];
         JourneyResponded "https://trycjaas.exp.bz/journey?A&$top=10"
                          (JArr [Sample.objectValue Sample.visit])] = Ok w' /\
    mapM (Utils.getTapeEventFromMessage Sample.fromISO)
         [Sample.objectValue Sample.visit] = Ok events /\
    length (tapeEvents (this w')) = 1 /\
    (forall e, In e events -> In e (tapeEvents (this w'))).
Proof.
  apply (stale_response_is_inserted Sample.fromISO Sample.JSON_parse 1
           (Sample.world (Sample.element journey "B" 5 [Sample.at_ 5]))
           [("streamId", str "A")]
           "https://trycjaas.exp.bz/journey?A&$top=10"
           [Sample.objectValue Sample.visit]).
  - reflexivity.
  - discriminate.
  - reflexivity.
  - reflexivity.
  - simpl. lia.
Defined.

(** ** Further properties of the ordered buffer *)

Lemma splice_Permutation {A : Type} (i : nat) (x : A) (l : list A) :
  Permutation (splice i x l) (x :: l).
Proof.
  unfold splice. rewrite <- (firstn_skipn i l) at 3.
  symmetry. apply Permutation_middle.
Qed.

Lemma insertOrdered_Permutation (event : TapeEvent) (buf : list TapeEvent) :
  Permutation (insertOrdered event buf) (event :: buf).
Proof.
  destruct (insertOrdered_splice event buf) as [i [_ ->]].
  apply splice_Permutation.
Qed.

Lemma enqueueAll_Permutation (events : list TapeEvent) :
  forall fuel el,
  isLivestream (type el) = false ->
  length (tapeEvents el) + length events <= fuel ->
  exists buf,
    foldM (enqueueEvent fuel) el events = Ok (setTapeEvents buf el) /\
    Permutation buf (events ++ tapeEvents el).
Proof.
  induction events as [|e events IH]; intros fuel el Hm Hf.
  - exists (tapeEvents el). now rewrite setTapeEvents_same.
  - simpl in Hf. simpl foldM.
    rewrite enqueueEvent_no_eviction by (trivial; lia). simpl bind.
    destruct (IH fuel (setTapeEvents (insertOrdered e (tapeEvents el)) el))
      as [buf [Hrun Hperm]]; trivial.
    { simpl. rewrite insertOrdered_length. lia. }
    exists buf. split; [now rewrite Hrun|].
    rewrite Hperm. simpl tapeEvents.
    rewrite insertOrdered_Permutation. simpl.
    symmetry. apply Permutation_middle.
Qed.

(** The exact number of events that the eviction loop removes. *)
Lemma evict_exact (buf : list TapeEvent) :
  forall fuel el,
  tapeEvents el = buf -> isLivestream (type el) = true ->
  (1 <= limit el)%Z -> length buf < fuel ->
  evict fuel el
  = Ok (setTapeEvents
          (skipn (length buf - (Z.to_nat (limit el) - 1)) buf) el).
Proof.
  induction buf as [|x rest IH]; intros fuel el Hb Hm Hl Hf;
    (destruct fuel as [|fuel]; [inversion Hf|]).
  - rewrite evict_idle.
    + simpl. now rewrite <- Hb, setTapeEvents_same.
    + unfold overCapacity. rewrite Hb. simpl.
      apply andb_false_intro1. rewrite Z.geb_leb. apply Z.leb_gt. lia.
  - destruct (overCapacity el) eqn:E.
    + rewrite (evict_step _ _ E).
      rewrite (IH fuel (dequeuePastOneEvent el)).
      * unfold dequeuePastOneEvent. rewrite setTapeEvents_twice.
        unfold overCapacity in E. rewrite Hm, andb_true_r, Hb in E.
        rewrite Z.geb_leb in E. apply Z.leb_le in E.
        simpl length in *. simpl limit.
        replace (S (length rest) - (Z.to_nat (limit el) - 1))
          with (S (length rest - (Z.to_nat (limit el) - 1))) by lia.
        reflexivity.
      * unfold dequeuePastOneEvent. simpl. now rewrite Hb.
      * exact Hm.
      * exact Hl.
      * simpl in Hf. lia.
    + rewrite (evict_idle _ _ E).
      unfold overCapacity in E. rewrite Hm, andb_true_r, Hb in E.
      rewrite Z.geb_leb in E. apply Z.leb_gt in E.
      replace (length (x :: rest) - (Z.to_nat (limit el) - 1)) with 0 by lia.
      simpl. now rewrite <- Hb, setTapeEvents_same.
Qed.

Lemma insertOrdered_invalid (event : TapeEvent) (buf : list TapeEvent) :
  isValid (timestamp event) = false -> insertOrdered event buf = event :: buf.
Proof.
  intros H. destruct (timestamp event) as [ms|] eqn:E; [discriminate|].
  unfold insertOrdered. destruct buf as [|first rest]; [reflexivity|].
  rewrite E.
  assert (Hlt : forall d, lt d InvalidDateTime = false) by now intros [].
  assert (Hgt : forall d, gt d InvalidDateTime = false) by now intros [].
  rewrite Hlt, Hgt. simpl scanIndex. rewrite E, Hgt. reflexivity.
Qed.

Lemma scanIndex_split (event : TapeEvent) (buf : list TapeEvent) :
  isValid (timestamp event) = true ->
  validTimestamps buf = true -> nonIncreasing buf = true ->
  Forall (fun e => gt (timestamp e) (timestamp event) = true)
         (firstn (scanIndex event buf) buf) /\
  Forall (fun e => gt (timestamp e) (timestamp event) = false)
         (skipn (scanIndex event buf) buf).
Proof.
  intros Hve. induction buf as [|a rest IH]; intros Hv Hs.
  - split; constructor.
  - pose proof (proj1 (validTimestamps_forall _) Hv) as Hall.
    assert (Hva : isValid (timestamp a) = true) by (apply Hall; now left).
    assert (Hvr : validTimestamps rest = true).
    { apply validTimestamps_forall. intros e He. apply Hall. now right. }
    apply nonIncreasing_cons in Hs as [Ha Hs].
    simpl scanIndex. destruct (gt (timestamp a) (timestamp event)) eqn:G.
    + destruct (IH Hvr Hs) as [H1 H2]. split; [|exact H2].
      simpl. constructor; assumption.
    + split; [constructor|]. simpl. constructor; [exact G|].
      apply Forall_forall. intros x Hx.
      pose proof (Ha x Hx) as Hax.
      assert (Hvx : isValid (timestamp x) = true) by (apply Hall; now right).
      instants.
Qed.

Lemma last_In {A : Type} (l : list A) (d : A) :
  l <> [] -> In (last l d) l.
Proof.
  induction l as [|a l IH]; intros Hne; [contradiction|].
  destruct l as [|b l]; [now left|].
  rewrite last_cons_cons. right. apply IH. discriminate.
Qed.

Lemma insertOrdered_placement (event : TapeEvent) (buf : list TapeEvent) :
  isValid (timestamp event) = true ->
  validTimestamps buf = true -> nonIncreasing buf = true ->
  exists newer rest,
    buf = newer ++ rest /\
    insertOrdered event buf = newer ++ event :: rest /\
    Forall (fun e => gt (timestamp e) (timestamp event) = true) newer /\
    Forall (fun e => gt (timestamp e) (timestamp event) = false) rest.
Proof.
  intros Hve Hv Hs. unfold insertOrdered.
  destruct buf as [|first tail]; [exists [], []; repeat split; constructor|].
  pose proof (proj1 (validTimestamps_forall _) Hv) as Hall.
  assert (Hvf : isValid (timestamp first) = true) by (apply Hall; now left).
  destruct (lt (timestamp first) (timestamp event)) eqn:L.
  - exists [], (first :: tail). repeat split; [constructor|].
    apply nonIncreasing_cons in Hs as [Hf _].
    apply Forall_forall. intros x [<-|Hx]; [instants|].
    pose proof (Hf x Hx) as Hfx.
    assert (Hvx : isValid (timestamp x) = true) by (apply Hall; now right).
    instants.
  - destruct (gt (timestamp (last (first :: tail) first)) (timestamp event))
      eqn:G.
    + exists (first :: tail), []. rewrite app_nil_r.
      repeat split; [|constructor].
      apply Forall_forall. intros x Hx.
      pose proof (notOlder_last first _ Hv Hs x Hx) as Hxl.
      assert (Hvx : isValid (timestamp x) = true) by now apply Hall.
      assert (Hvl : isValid (timestamp (last (first :: tail) first)) = true)
        by (apply Hall, last_In; discriminate).
      revert Hxl G Hvl. generalize (last (first :: tail) first).
      intros l Hxl G Hvl. instants.
    + exists (firstn (scanIndex event (first :: tail)) (first :: tail)),
             (skipn (scanIndex event (first :: tail)) (first :: tail)).
      split; [now rewrite firstn_skipn|]. split; [reflexivity|].
      now apply scanIndex_split.
Qed.

(** X1: in [livestream] mode with a limit that is a positive integer (the
    element keeps [limit] as an integer here), every call of [enqueueEvent]
    returns, leaves at most [limit] events in the buffer, and the event just
    given is one of them. *)
Theorem livestream_capacity_bound (fuel : nat) (el : ELEMENT)
    (event : TapeEvent) :
  isLivestream (type el) = true -> (1 <= limit el)%Z ->
  length (tapeEvents el) < fuel ->
  exists el',
    enqueueEvent fuel el event = Ok el' /\
    (Z.of_nat (length (tapeEvents el')) <= limit el)%Z /\
    In event (tapeEvents el').
Proof.
  intros Hm Hl Hf.
  destruct (enqueueEvent_livestream fuel el event Hm Hl Hf) as [k [Hk Hlen]].
  eexists. split; [exact Hk|]. simpl. split.
  - rewrite insertOrdered_length. lia.
  - apply insertOrdered_In. now left.
Qed.

Lemma livestream_capacity_bound_witness :
  exists el',
    enqueueEvent 4
      (Sample.element livestream "A" 2
         [Sample.at_ 5; Sample.at_ 4; Sample.at_ 3]) (Sample.at_ 6) = Ok el' /\
    (Z.of_nat (length (tapeEvents el')) <= 2)%Z /\
    In (Sample.at_ 6) (tapeEvents el').
Proof.
  apply (livestream_capacity_bound 4
           (Sample.element livestream "A" 2
              [Sample.at_ 5; Sample.at_ 4; Sample.at_ 3]) (Sample.at_ 6)).
  - reflexivity.
  - simpl. lia.
  - simpl. lia.
Defined.

(** X2: in [livestream] mode with a limit of zero or less, [enqueueEvent]
    does not return: the test of the eviction loop stays true on the empty
    array, which [shift] leaves empty.  No amount of fuel yields a result. *)
Theorem nonpositive_limit_never_returns (fuel : nat) (el : ELEMENT)
    (event : TapeEvent) :
  isLivestream (type el) = true -> (limit el <= 0)%Z ->
  enqueueEvent fuel el event = OutOfFuel /\
  evict fuel (setTapeEvents [] el) = OutOfFuel.
Proof.
  intros Hm Hl. split.
  - unfold enqueueEvent. now rewrite (evict_diverges fuel el Hm Hl).
  - now apply evict_diverges.
Qed.

Lemma nonpositive_limit_never_returns_witness :
  enqueueEvent 1000 (Sample.element livestream "A" 0 []) (Sample.at_ 6)
  = OutOfFuel /\
  evict 1000 (setTapeEvents [] (Sample.element livestream "A" 0 []))
  = OutOfFuel.
Proof.
  apply (nonpositive_limit_never_returns 1000
           (Sample.element livestream "A" 0 []) (Sample.at_ 6)).
  - reflexivity.
  - simpl. lia.
Defined.

(** X3: in [livestream] mode with a positive limit, the eviction before an
    insertion removes events from the head only: of a buffer of [n] events
    it keeps the last [limit - 1], that is the oldest ones (all of them when
    [n < limit]), and the new event is spliced into what is kept. *)
Theorem livestream_keeps_oldest (fuel : nat) (el : ELEMENT)
    (event : TapeEvent) :
  isLivestream (type el) = true -> (1 <= limit el)%Z ->
  length (tapeEvents el) < fuel ->
  let kept :=
    skipn (length (tapeEvents el) - (Z.to_nat (limit el) - 1)) (tapeEvents el)
  in
  exists i,
    i <= length kept /\
    enqueueEvent fuel el event = Ok (setTapeEvents (splice i event kept) el).
Proof.
  intros Hm Hl Hf kept.
  pose proof (evict_exact (tapeEvents el) fuel el eq_refl Hm Hl Hf) as Hev.
  fold kept in Hev.
  destruct (insertOrdered_splice event kept) as [i [Hi Hins]].
  exists i. split; [exact Hi|].
  rewrite (enqueueEvent_spec _ _ _ _ Hev).
  - simpl. now rewrite Hins.
  - simpl. unfold kept. rewrite length_skipn. lia.
Qed.

Lemma livestream_keeps_oldest_witness :
  let el := Sample.element livestream "A" 2
              [Sample.at_ 5; Sample.at_ 4; Sample.at_ 3] in
  let kept :=
    skipn (length (tapeEvents el) - (Z.to_nat (limit el) - 1)) (tapeEvents el)
  in
  exists i,
    i <= length kept /\
    enqueueEvent 4 el (Sample.at_ 6)
    = Ok (setTapeEvents (splice i (Sample.at_ 6) kept) el).
Proof.
  apply (livestream_keeps_oldest 4
           (Sample.element livestream "A" 2
              [Sample.at_ 5; Sample.at_ 4; Sample.at_ 3]) (Sample.at_ 6)).
  - reflexivity.
  - simpl. lia.
  - simpl. lia.
Defined.

(** X4: once a [livestream] buffer of valid, newest-first events is full, an
    event newer than its head takes the place of the head: the previous
    newest event is lost and the rest of the buffer stays as it was. *)
Theorem full_buffer_replaces_head (fuel : nat) (el : ELEMENT)
    (first event : TapeEvent) (rest : list TapeEvent) :
  isLivestream (type el) = true ->
  tapeEvents el = first :: rest ->
  limit el = Z.of_nat (length (first :: rest)) ->
  validTimestamps (first :: rest) = true ->
  nonIncreasing (first :: rest) = true ->
  isValid (timestamp event) = true ->
  lt (timestamp first) (timestamp event) = true ->
  length (first :: rest) < fuel ->
  enqueueEvent fuel el event = Ok (setTapeEvents (event :: rest) el).
Proof.
  intros Hm Hbuf Hlim Hv Hs Hve Hlt Hf.
  assert (Hl : (1 <= limit el)%Z) by (rewrite Hlim; simpl length; lia).
  assert (Hf' : length (tapeEvents el) < fuel) by now rewrite Hbuf.
  pose proof (evict_exact (tapeEvents el) fuel el eq_refl Hm Hl Hf') as Hev.
  rewrite Hbuf, Hlim, Nat2Z.id in Hev.
  replace (length (first :: rest) - (length (first :: rest) - 1)) with 1
    in Hev by (simpl length; lia).
  simpl skipn in Hev.
  rewrite (enqueueEvent_spec _ _ _ _ Hev) by (simpl in *; lia).
  simpl tapeEvents. rewrite setTapeEvents_twice. f_equal. f_equal.
  destruct rest as [|second rest']; [reflexivity|].
  unfold insertOrdered.
  pose proof (proj1 (validTimestamps_forall _) Hv) as Hall.
  assert (Hvf : isValid (timestamp first) = true) by (apply Hall; now left).
  assert (Hv2 : isValid (timestamp second) = true)
    by (apply Hall; right; now left).
  apply nonIncreasing_cons in Hs as [H1 _].
  pose proof (H1 second (or_introl eq_refl)) as H12.
  assert (L : lt (timestamp second) (timestamp event) = true) by instants.
  now rewrite L.
Qed.

Lemma full_buffer_replaces_head_witness :
  enqueueEvent 4
    (Sample.element livestream "A" 3
       [Sample.at_ 5; Sample.at_ 4; Sample.at_ 3]) (Sample.at_ 6)
  = Ok (setTapeEvents [Sample.at_ 6; Sample.at_ 4; Sample.at_ 3]
          (Sample.element livestream "A" 3
             [Sample.at_ 5; Sample.at_ 4; Sample.at_ 3])).
Proof.
  apply (full_buffer_replaces_head 4
           (Sample.element livestream "A" 3
              [Sample.at_ 5; Sample.at_ 4; Sample.at_ 3])
           (Sample.at_ 5) (Sample.at_ 6) [Sample.at_ 4; Sample.at_ 3]);
    first [reflexivity | simpl; lia].
Defined.

(** X5: outside [livestream] mode the limit plays no part: a batch of events
    with valid timestamps, enqueued one by one into a newest-first buffer of
    valid events, is inserted whole.  The resulting buffer is a permutation
    of the batch together with the old buffer, and it is newest-first. *)
Theorem batch_is_sorted_into_buffer (fuel : nat) (el : ELEMENT)
    (events : list TapeEvent) :
  isLivestream (type el) = false ->
  validTimestamps events = true ->
  validTimestamps (tapeEvents el) = true ->
  nonIncreasing (tapeEvents el) = true ->
  length (tapeEvents el) + length events <= fuel ->
  exists buf,
    foldM (enqueueEvent fuel) el events = Ok (setTapeEvents buf el) /\
    Permutation buf (events ++ tapeEvents el) /\
    nonIncreasing buf = true.
Proof.
  intros Hm Hve Hv Hs Hf.
  destruct (enqueueAll_Permutation events fuel el Hm Hf) as [buf [Hrun Hperm]].
  destruct (enqueueAll_sorted events fuel el (or_introl Hm) Hve Hv Hs Hf)
    as [el' [Hrun' [_ Hs']]].
  exists buf. split; [exact Hrun|]. split; [exact Hperm|].
  rewrite Hrun in Hrun'. injection Hrun' as <-. exact Hs'.
Qed.

Lemma batch_is_sorted_into_buffer_witness :
  exists buf,
    foldM (enqueueEvent 3) (Sample.element journey "A" 1 [Sample.at_ 2])
          [Sample.at_ 1; Sample.at_ 3]
    = Ok (setTapeEvents buf (Sample.element journey "A" 1 [Sample.at_ 2])) /\
    Permutation buf ([Sample.at_ 1; Sample.at_ 3] ++ [Sample.at_ 2]) /\
    nonIncreasing buf = true.
Proof.
  apply (batch_is_sorted_into_buffer 3
           (Sample.element journey "A" 1 [Sample.at_ 2])
           [Sample.at_ 1; Sample.at_ 3]);
    first [reflexivity | simpl; lia].
Defined.

(** X6: where an event lands.  Outside [livestream] mode, an event with a
    valid timestamp enqueued into a newest-first buffer of valid events is
    put after every event that is strictly newer and before every event that
    is not; in particular it goes in front of the events that have its own
    timestamp. *)
Theorem event_lands_before_equal_timestamps (fuel : nat) (el : ELEMENT)
    (event : TapeEvent) :
  isLivestream (type el) = false ->
  isValid (timestamp event) = true ->
  validTimestamps (tapeEvents el) = true ->
  nonIncreasing (tapeEvents el) = true ->
  length (tapeEvents el) < fuel ->
  exists newer rest,
    tapeEvents el = newer ++ rest /\
    enqueueEvent fuel el event = Ok (setTapeEvents (newer ++ event :: rest) el) /\
    Forall (fun e => gt (timestamp e) (timestamp event) = true) newer /\
    Forall (fun e => gt (timestamp e) (timestamp event) = false) rest.
Proof.
  intros Hm Hve Hv Hs Hf.
  destruct (insertOrdered_placement event (tapeEvents el) Hve Hv Hs)
    as [newer [rest [Hbuf [Hins [Hn Hr]]]]].
  exists newer, rest. split; [exact Hbuf|]. split; [|now split].
  rewrite enqueueEvent_no_eviction by assumption. now rewrite Hins.
Qed.

Lemma event_lands_before_equal_timestamps_witness :
  let el := Sample.element journey "A" 5
              [Sample.at_ 5; Sample.at_ 4; Sample.at_ 4; Sample.at_ 3] in
  exists newer rest,
    tapeEvents el = newer ++ rest /\
    enqueueEvent 5 el (Sample.at_ 4)
    = Ok (setTapeEvents (newer ++ Sample.at_ 4 :: rest) el) /\
    Forall (fun e => gt (timestamp e) (timestamp (Sample.at_ 4)) = true)
           newer /\
    Forall (fun e => gt (timestamp e) (timestamp (Sample.at_ 4)) = false)
           rest.
Proof.
  apply (event_lands_before_equal_timestamps 5
           (Sample.element journey "A" 5
              [Sample.at_ 5; Sample.at_ 4; Sample.at_ 4; Sample.at_ 3])
           (Sample.at_ 4));
    first [reflexivity | simpl; lia].
Defined.

(** X7: an event whose timestamp is an invalid DateTime is never compared
    successfully: outside [livestream] mode it is put at the head of the
    buffer, whatever the buffer holds. *)
Theorem invalid_timestamp_goes_first (fuel : nat) (el : ELEMENT)
    (event : TapeEvent) :
  isLivestream (type el) = false ->
  isValid (timestamp event) = false ->
  length (tapeEvents el) < fuel ->
  enqueueEvent fuel el event
  = Ok (setTapeEvents (event :: tapeEvents el) el).
Proof.
  intros Hm Hinv Hf.
  rewrite enqueueEvent_no_eviction by assumption.
  now rewrite insertOrdered_invalid.
Qed.

Lemma invalid_timestamp_goes_first_witness :
  let el := Sample.element journey "A" 5 [Sample.at_ 5; Sample.at_ 4] in
  enqueueEvent 3 el Sample.undated
  = Ok (setTapeEvents (Sample.undated :: tapeEvents el) el).
Proof.
  apply (invalid_timestamp_goes_first 3
           (Sample.element journey "A" 5 [Sample.at_ 5; Sample.at_ 4])
           Sample.undated);
    first [reflexivity | simpl; lia].
Defined.

(** ** Further properties of the normalizer and of the handlers *)

Section NormalizerEdges.

Variable fromISO : Value -> DateTime.
Variable JSON_parse : string -> option JSON.

Lemma notAnonymous_throws (p : Value) :
  Utils.notAnonymous p = Throw TypeError <-> hasNoIndexOf p = true.
Proof.
  unfold Utils.notAnonymous, hasNoIndexOf.
  destruct p as [[|b|n|s|items|fields]|]; simpl;
    try (split; [discriminate|discriminate]);
    try (split; reflexivity).
  - destruct b; simpl; split; trivial; discriminate.
  - destruct (negb (n =? 0)%Z); simpl; split; trivial; discriminate.
  - destruct (negb (String.eqb s "")); simpl; split; discriminate.
Qed.

Lemma notAnonymous_returns (p : Value) :
  Utils.notAnonymous p <> OutOfFuel.
Proof.
  unfold Utils.notAnonymous.
  destruct (truthy p); [|discriminate].
  destruct p as [[|b|n|s|items|fields]|]; discriminate.
Qed.

Lemma getTapeEventFromMessage_returns (m : JSON) :
  Utils.getTapeEventFromMessage fromISO m <> OutOfFuel.
Proof.
  destruct m as [|b|n|s|items|fields]; try discriminate.
  unfold Utils.getTapeEventFromMessage. simpl.
  pose proof (notAnonymous_returns (assoc "person" fields)) as H.
  destruct (Utils.notAnonymous (assoc "person" fields)); simpl;
    [discriminate|discriminate|contradiction].
Qed.

(** X8: for a message whose [time] is absent or a primitive value (the
    wire contract has a string there), normalization fails, with a
    TypeError, exactly on the message [null] and on an object whose [person]
    is truthy but is neither a string nor an array (a number, [true], an
    object); every other such message is normalized, whether or not its
    [time] can be parsed. *)
Theorem normalization_fails_exactly_when (m : JSON) :
  hasPlainTime m = true ->
  (Utils.getTapeEventFromMessage fromISO m = Throw TypeError <->
   m = JNull \/
   exists fields,
     m = JObj fields /\ hasNoIndexOf (assoc "person" fields) = true).
Proof.
  intros _. destruct m as [|b|n|s|items|fields].
  - split; [now left|reflexivity].
  - split; [discriminate|]. intros [H|[f [H _]]]; discriminate.
  - split; [discriminate|]. intros [H|[f [H _]]]; discriminate.
  - split; [discriminate|]. intros [H|[f [H _]]]; discriminate.
  - split; [discriminate|]. intros [H|[f [H _]]]; discriminate.
  - unfold Utils.getTapeEventFromMessage. simpl.
    pose proof (notAnonymous_throws (assoc "person" fields)) as Hp.
    destruct (Utils.notAnonymous (assoc "person" fields)) as [keep|[]|] eqn:E;
      simpl.
    + split; [discriminate|]. intros [H|[f [H Hf]]]; [discriminate|].
      injection H as <-. apply Hp in Hf. discriminate.
    + split; [|reflexivity]. intros _. right. exists fields.
      split; [reflexivity|]. now apply Hp.
    + split; [discriminate|]. intros [H|[f [H Hf]]]; [discriminate|].
      injection H as <-. apply Hp in Hf. discriminate.
Qed.

Lemma mapM_throws {A B : Type} (f : A -> result B) (xs : list A) (x : A) :
  (forall y, f y <> OutOfFuel) ->
  In x xs -> f x = Throw TypeError -> mapM f xs = Throw TypeError.
Proof.
  intros Hret. induction xs as [|y xs IH]; intros Hin Hx; [destruct Hin|].
  simpl. destruct Hin as [->|Hin].
  - now rewrite Hx.
  - specialize (IH Hin Hx). pose proof (Hret y) as Hy.
    destruct (f y) as [b|[]|]; simpl;
      [now rewrite IH|reflexivity|contradiction].
Qed.

(** X9: one message that cannot be normalized aborts the whole response:
    the handler of a historical response throws while it normalizes the
    messages, which it does for the whole array before it enqueues the
    first event, so that the messages that precede the failing one are not
    enqueued either.  A body that is neither [null] nor an array makes the
    handler throw as well. *)
Theorem failing_message_aborts_batch (fuel : nat) (x : JSON) (el : ELEMENT) :
  (exists items m,
     x = JArr items /\ In m items /\
     Utils.getTapeEventFromMessage fromISO m = Throw TypeError) \/
  (x <> JNull /\ forall items, x <> JArr items) ->
  journeyResponse fromISO fuel x el = Throw TypeError /\
  forall items,
    x = JArr items ->
    mapM (Utils.getTapeEventFromMessage fromISO) items = Throw TypeError.
Proof.
  intros [[items [m [-> [Hin Hm]]]]|[Hnull Harr]].
  - pose proof (mapM_throws _ items m getTapeEventFromMessage_returns Hin Hm)
      as Hmap.
    split.
    + unfold journeyResponse. now rewrite Hmap.
    + intros items' E. injection E as <-. exact Hmap.
  - split.
    + destruct x as [|b|n|s|items|fields]; try reflexivity.
      * contradiction.
      * now destruct (Harr items).
    + intros items E. now destruct (Harr items).
Qed.

Lemma getTapeEventFromMessage_blank (m : JSON) :
  truthy (Some m) = true -> isObject m = false ->
  Utils.getTapeEventFromMessage fromISO m = Ok (blankEvent fromISO).
Proof.
  destruct m as [|b|n|s|items|fields]; intros Ht Ho;
    try discriminate; reflexivity.
Qed.

(** X10: a live message whose payload is valid JSON and truthy but not an
    object (a number, a non-empty string, [true], an array) is not
    ignored: it is normalized into an event without title, id, person and
    data, whose timestamp is what [DateTime.fromISO(undefined)] gives, and
    that event is put into the buffer. *)
Theorem non_object_payload_is_enqueued (fuel : nat) (event_data : string)
    (w : World) (m : JSON) :
  JSON_parse event_data = Some m ->
  truthy (Some m) = true ->
  isObject m = false ->
  isLivestream (type (this w)) = false \/ (1 <= limit (this w))%Z ->
  length (tapeEvents (this w)) < fuel ->
  exists buf,
    onmessage fromISO JSON_parse fuel event_data w
    = Ok (withThis (setTapeEvents buf (this w)) w) /\
    In (blankEvent fromISO) buf.
Proof.
  intros Hparse Ht Ho Hc Hf.
  destruct (enqueueEvent_returns fuel (this w) (blankEvent fromISO) Hc Hf)
    as [k Hk].
  eexists. unfold onmessage.
  rewrite Hparse, Ht, (getTapeEventFromMessage_blank m Ht Ho). simpl bind.
  rewrite Hk. simpl bind. split; [reflexivity|].
  apply insertOrdered_In. now left.
Qed.

End NormalizerEdges.

Lemma normalization_fails_exactly_when_witness :
  let m := JObj [("type", JStr "Identify"); ("time", JStr "yesterday");
                 ("person", JNum 42)] in
  Utils.getTapeEventFromMessage Sample.fromISO m = Throw TypeError <->
  m = JNull \/
  exists fields,
    m = JObj fields /\ hasNoIndexOf (assoc "person" fields) = true.
Proof.
  apply (normalization_fails_exactly_when Sample.fromISO
           (JObj [("type", JStr "Identify"); ("time", JStr "yesterday");
                  ("person", JNum 42)])).
  reflexivity.
Defined.

Lemma failing_message_aborts_batch_witness :
  let x := JArr [Sample.objectValue Sample.visit;
                 JObj [("type", JStr "Identify"); ("person", JNum 42)]] in
  journeyResponse Sample.fromISO 3 x (Sample.element journey "A" 5 [])
  = Throw TypeError /\
  forall items,
    x = JArr items ->
    mapM (Utils.getTapeEventFromMessage Sample.fromISO) items
    = Throw TypeError.
Proof.
  apply (failing_message_aborts_batch Sample.fromISO 3
           (JArr [Sample.objectValue Sample.visit;
                  JObj [("type", JStr "Identify"); ("person", JNum 42)]])
           (Sample.element journey "A" 5 [])).
  left.
  exists [Sample.objectValue Sample.visit;
          JObj [("type", JStr "Identify"); ("person", JNum 42)]],
         (JObj [("type", JStr "Identify"); ("person", JNum 42)]).
  split; [reflexivity|]. split; [right; now left|reflexivity].
Defined.

Lemma non_object_payload_is_enqueued_witness :
  let w := Sample.world (Sample.element livestream "A" 5 [Sample.at_ 5]) in
  exists buf,
    onmessage Sample.fromISO parseFortyTwo 2 "42" w
    = Ok (withThis (setTapeEvents buf (this w)) w) /\
    In (blankEvent Sample.fromISO) buf.
Proof.
  apply (non_object_payload_is_enqueued Sample.fromISO parseFortyTwo 2 "42"
           (Sample.world (Sample.element livestream "A" 5 [Sample.at_ 5]))
           (JNum 42)).
  - reflexivity.
  - reflexivity.
  - reflexivity.
  - right. simpl. lia.
  - simpl. lia.
Defined.

(** ** Further properties of the stream coordinator *)

Lemma append_nil_r (s : string) : (s ++ "")%string = s.
Proof. induction s as [|c s IH]; simpl; [reflexivity|now rewrite IH]. Qed.

Lemma append_assoc (a b c : string) :
  ((a ++ b) ++ c)%string = (a ++ b ++ c)%string.
Proof. induction a as [|x a IH]; simpl; [reflexivity|now rewrite IH]. Qed.

(** X11: the query of the historical request is the query of the live
    connection, followed by the default page size [&$top=10] exactly when
    no pagination is set; with a pagination the two queries are equal. *)
Theorem journey_query_adds_default_page (el : ELEMENT) :
  getAPIQueryParams true el
  = (getAPIQueryParams false el
     ++ (if truthyAttr (pagination el) then "" else "&$top=10"))%string.
Proof.
  unfold getAPIQueryParams.
  destruct (truthyAttr (pagination el)); simpl.
  - now rewrite append_nil_r.
  - reflexivity.
Qed.

Lemma subscribeToStream_eventSource (w : World) :
  eventSource (this (subscribeToStream w))
  = if negb (isJourney (type (this w)))
    then Some (length (trace w)
               + match eventSource (this w) with
                 | Some _ => 1
                 | None => 0
                 end
               + (if isJourneyAndStream (type (this w)) then 1 else 0))
    else eventSource (this w).
Proof.
  destruct w as [[buf url mode f sid pag lim [h|]] tr]; destruct mode;
    unfold subscribeToStream, getJourney, emit, withThis; simpl;
    rewrite ?length_app; simpl; rewrite ?Nat.add_0_r, <- ?Nat.add_assoc;
    reflexivity.
Qed.

(** X12: [subscribeToStream] does not look at [streamId].  In a streaming
    mode, with no filter and no pagination, it opens a connection to
    [baseURL/real-time?] followed by the string form of [streamId]: for a
    [streamId] that is [null] the URL ends in [?null].  The error handler
    reaches this after the stream id has been removed. *)
Theorem reconnect_uses_string_of_stream_id (w : World) :
  isJourney (type (this w)) = false ->
  truthyAttr (filter (this w)) = false ->
  truthyAttr (pagination (this w)) = false ->
  exists h,
    In (EventSourceOpen h
          (baseURL (this w) ++ "/real-time?" ++ toString (streamId (this w))))
       (trace (onerror w)) /\
    eventSource (this (onerror w)) = Some h.
Proof.
  intros Hj Hf Hp. unfold onerror.
  assert (Hurl : realTimeURL (this w)
                 = (baseURL (this w) ++ "/real-time?"
                    ++ toString (streamId (this w)))%string).
  { unfold realTimeURL, getAPIQueryParams. now rewrite Hf, Hp. }
  rewrite subscribeToStream_trace, subscribeToStream_eventSource, Hj, Hurl.
  simpl negb. cbv iota. eexists. split; [|reflexivity].
  apply in_or_app. right. apply in_or_app. right. apply in_or_app. right.
  now left.
Qed.

Lemma reconnect_uses_string_of_stream_id_witness :
  let w := Sample.world
             (setStreamId null (Sample.element livestream "A" 5 [])) in
  exists h,
    In (EventSourceOpen h "https://trycjaas.exp.bz/real-time?null")
       (trace (onerror w)) /\
    eventSource (this (onerror w)) = Some h.
Proof.
  apply (reconnect_uses_string_of_stream_id
           (Sample.world
              (setStreamId null (Sample.element livestream "A" 5 []))));
    reflexivity.
Defined.

(** X13: [updated] does nothing at all, neither to the buffer nor to the
    network, when [streamId] is not set, or when the changed properties
    include neither [streamId] nor a [filter] that differs from its previous
    value.  Changing only [type], [limit], [pagination] or [baseURL], or
    removing the stream id, leaves the running subscription as it is. *)
Theorem updated_ignores_other_changes
    (changedProperties : list (string * Attr)) (w : World) :
  truthyAttr (streamId (this w)) = false \/
  (forall name oldValue,
     In (name, oldValue) changedProperties ->
     name <> "streamId" /\
     (name = "filter" -> strictEq (filter (this w)) oldValue = true)) ->
  updated changedProperties w = w.
Proof.
  intros H. unfold updated.
  destruct (shouldResubscribe changedProperties (this w)) eqn:E;
    [|reflexivity].
  exfalso. unfold shouldResubscribe in E.
  apply existsb_exists in E as [[name old] [Hin Hbody]].
  destruct H as [Hunset|Hother].
  - rewrite Hunset, !andb_false_r in Hbody. discriminate.
  - destruct (Hother name old Hin) as [Hn Hf].
    apply String.eqb_neq in Hn. rewrite Hn in Hbody. simpl in Hbody.
    destruct (String.eqb name "filter") eqn:Ef; [|discriminate].
    apply String.eqb_eq in Ef. rewrite (Hf Ef) in Hbody. discriminate.
Qed.

Lemma updated_ignores_other_changes_witness :
  let w := Sample.world
             (Sample.element livestream "A" 5 [Sample.at_ 5; Sample.at_ 4]) in
  updated [("type", str "journey"); ("pagination", null);
           ("filter", undefined)] w = w.
Proof.
  apply (updated_ignores_other_changes
           [("type", str "journey"); ("pagination", null);
            ("filter", undefined)]
           (Sample.world
              (Sample.element livestream "A" 5
                 [Sample.at_ 5; Sample.at_ 4]))).
  right. intros name oldValue [H|[H|[H|[]]]]; injection H as <- <-;
    (split; [discriminate|]); intros E; try discriminate E; reflexivity.
Defined.

(** *** What a handler leaves alone *)

Lemma enqueueEvent_frame (fuel : nat) (el el' : ELEMENT) (event : TapeEvent) :
  enqueueEvent fuel el event = Ok el' ->
  exists buf, el' = setTapeEvents buf el.
Proof.
  unfold enqueueEvent. intros H.
  destruct (evict fuel el) as [el1| |] eqn:E; cbn [bind] in H;
    try discriminate.
  destruct (evict_drops_from_head _ _ _ E) as [k [Hel1 _]].
  assert (Hset : forall buf, setTapeEvents buf el1 = setTapeEvents buf el).
  { intros buf. rewrite Hel1. apply setTapeEvents_twice. }
  destruct (length (tapeEvents el1) =? 0).
  { injection H as <-. eexists. apply Hset. }
  destruct (timestampOf (nth_error (tapeEvents el1) 0)); cbn [bind] in H;
    try discriminate.
  destruct (lt a (timestamp event)).
  { injection H as <-. eexists. apply Hset. }
  destruct (timestampOf
              (nth_error (tapeEvents el1) (length (tapeEvents el1) - 1)));
    cbn [bind] in H; try discriminate.
  destruct (gt a0 (timestamp event)).
  { injection H as <-. eexists. apply Hset. }
  destruct (scan fuel (tapeEvents el1) event); cbn [bind] in H;
    try discriminate.
  injection H as <-. eexists. apply Hset.
Qed.

Lemma enqueueAll_frame (fuel : nat) (events : list TapeEvent) :
  forall el el',
  foldM (enqueueEvent fuel) el events = Ok el' ->
  exists buf, el' = setTapeEvents buf el.
Proof.
  induction events as [|e events IH]; intros el el' H.
  - injection H as <-. exists (tapeEvents el). now rewrite setTapeEvents_same.
  - simpl in H. destruct (enqueueEvent fuel el e) as [el1| |] eqn:E;
      cbn [bind] in H; try discriminate.
    destruct (enqueueEvent_frame _ _ _ _ E) as [b1 ->].
    destruct (IH _ _ H) as [b2 ->]. exists b2. apply setTapeEvents_twice.
Qed.

(** *** Where a handler can throw *)

Lemma evict_never_throws (fuel : nat) :
  forall el e, evict fuel el <> Throw e.
Proof.
  induction fuel as [|fuel IH]; intros el e; [discriminate|].
  destruct (overCapacity el) eqn:E.
  - rewrite (evict_step _ _ E). apply IH.
  - rewrite (evict_idle _ _ E). discriminate.
Qed.

Lemma scan_from_never_throws (event d : TapeEvent) (suf : list TapeEvent) :
  forall pre fuel rs e,
  suf <> [] ->
  gt (timestamp (last suf d)) (timestamp event) = false ->
  while fuel (scanCond (pre ++ suf) event) (scanBody (pre ++ suf))
    {| currentIndex := length pre;
       currentItem := nth_error (pre ++ suf) (length pre);
       reads := rs |}
  <> Throw e.
Proof.
  induction suf as [|x rest IH]; intros pre fuel rs e Hne Hlast;
    [contradiction|].
  destruct fuel as [|fuel]; [discriminate|].
  rewrite while_unfold. unfold scanCond at 1. simpl currentItem.
  rewrite nth_error_middle. simpl timestampOf. simpl bind.
  destruct (gt (timestamp x) (timestamp event)) eqn:G.
  - assert (Hin : (length pre <? length (pre ++ x :: rest)) = true).
    { apply Nat.ltb_lt. rewrite length_app. simpl. lia. }
    simpl currentIndex. rewrite Hin. simpl andb. cbv iota.
    destruct rest as [|y rest'].
    { simpl in Hlast. congruence. }
    rewrite last_cons_cons in Hlast.
    specialize (IH (pre ++ [x]) fuel (rs ++ [length pre + 1]) e).
    rewrite <- app_assoc in IH. simpl app in IH.
    rewrite length_app in IH. simpl length in IH.
    apply IH; [discriminate|exact Hlast].
  - simpl andb. cbv iota. discriminate.
Qed.

(** [enqueueEvent] itself never throws: every index it reads is within the
    array.  A handler can therefore throw only while it normalizes, before
    the first assignment to [this.tapeEvents]. *)
Lemma enqueueEvent_never_throws (fuel : nat) (el : ELEMENT)
    (event : TapeEvent) (e : Exn) :
  enqueueEvent fuel el event <> Throw e.
Proof.
  unfold enqueueEvent.
  pose proof (evict_never_throws fuel el) as Hev.
  destruct (evict fuel el) as [el1|e1|]; cbn [bind];
    [|now destruct (Hev e1)|discriminate].
  destruct (tapeEvents el1) as [|first rest] eqn:Hbuf; [discriminate|].
  change (length (first :: rest) =? 0) with false. cbv iota.
  simpl nth_error at 1. simpl timestampOf at 1. simpl bind.
  destruct (lt (timestamp first) (timestamp event)); [discriminate|].
  change (length rest - 0) with (length (first :: rest) - 1).
  rewrite (nth_error_last rest first first). cbn [timestampOf bind].
  destruct (gt (timestamp (last (first :: rest) first)) (timestamp event))
    eqn:G; [discriminate|].
  pose proof (scan_from_never_throws event first (first :: rest) [] fuel [0])
    as Hscan.
  unfold scan, scanStart.
  destruct (while fuel (scanCond (first :: rest) event)
              (scanBody (first :: rest))
              {| currentIndex := 0;
                 currentItem := nth_error (first :: rest) 0;
                 reads := [0] |}) as [sc|e1|] eqn:W; cbn [bind];
    [discriminate| |discriminate].
  exfalso. apply (Hscan e1); [discriminate|exact G|exact W].
Qed.

Lemma enqueueAll_never_throws (fuel : nat) (events : list TapeEvent) :
  forall el e, foldM (enqueueEvent fuel) el events <> Throw e.
Proof.
  induction events as [|ev events IH]; intros el e; [discriminate|].
  simpl. pose proof (enqueueEvent_never_throws fuel el ev) as H.
  destruct (enqueueEvent fuel el ev) as [el1|e1|]; cbn [bind];
    [apply IH|now destruct (H e1)|discriminate].
Qed.

Section Connections.

Variable fromISO : Value -> DateTime.
Variable JSON_parse : string -> option JSON.

Lemma journeyResponse_frame (fuel : nat) (x : JSON) (el el' : ELEMENT) :
  journeyResponse fromISO fuel x el = Ok el' ->
  exists buf, el' = setTapeEvents buf el.
Proof.
  unfold journeyResponse. intros H.
  destruct x as [|b|n|s|items|fields]; try discriminate.
  - injection H as <-. exists (tapeEvents el). now rewrite setTapeEvents_same.
  - destruct (mapM (Utils.getTapeEventFromMessage fromISO) items);
      cbn [bind] in H; try discriminate.
    now apply enqueueAll_frame in H.
Qed.

Lemma onmessage_frame (fuel : nat) (event_data : string) (w w' : World) :
  onmessage fromISO JSON_parse fuel event_data w = Ok w' ->
  exists buf, w' = withThis (setTapeEvents buf (this w)) w.
Proof.
  unfold onmessage. intros H.
  assert (Hsame : w = withThis (setTapeEvents (tapeEvents (this w)) (this w)) w).
  { rewrite setTapeEvents_same. now destruct w. }
  destruct (truthy (JSON_parse event_data));
    [|injection H as <-; eexists; exact Hsame].
  destruct (JSON_parse event_data) as [m|];
    [|injection H as <-; eexists; exact Hsame].
  destruct (Utils.getTapeEventFromMessage fromISO m); cbn [bind] in H;
    try discriminate.
  destruct (enqueueEvent fuel (this w) a) as [el'| |] eqn:E; cbn [bind] in H;
    try discriminate.
  injection H as <-. destruct (enqueueEvent_frame _ _ _ _ E) as [buf ->].
  now exists buf.
Qed.

(** *** Open connections *)

Lemma isOpen_after_close (h h0 : nat) (tr : list Effect) :
  isOpen h (tr ++ [EventSourceClose h0]) = isOpen h tr && negb (h0 =? h).
Proof.
  unfold isOpen. rewrite !existsb_app. simpl.
  rewrite !orb_false_r, negb_orb. apply andb_assoc.
Qed.

Lemma isOpen_after_fetch (h : nat) (url : string) (tr : list Effect) :
  isOpen h (tr ++ [Fetch url]) = isOpen h tr.
Proof.
  unfold isOpen. rewrite !existsb_app. simpl. now rewrite !orb_false_r.
Qed.

Lemma isOpen_after_requestUpdate (h : nat) (tr : list Effect) :
  isOpen h (tr ++ [RequestUpdate]) = isOpen h tr.
Proof.
  unfold isOpen. rewrite !existsb_app. simpl. now rewrite !orb_false_r.
Qed.

Lemma isOpen_after_open (h h' : nat) (url : string) (tr : list Effect) :
  isOpen h (tr ++ [EventSourceOpen h' url]) = true ->
  isOpen h tr = true \/ h' = h.
Proof.
  unfold isOpen. rewrite !existsb_app. simpl. rewrite !orb_false_r.
  destruct (h' =? h) eqn:E.
  - intros _. right. now apply Nat.eqb_eq.
  - rewrite orb_false_r. now left.
Qed.

Lemma subscribeToStream_currentOnly (w : World) :
  currentOnly w -> currentOnly (subscribeToStream w).
Proof.
  unfold currentOnly.
  destruct w as [[buf url mode f sid pag lim [h0|]] tr]; destruct mode;
    unfold subscribeToStream, getJourney, emit, withThis; simpl;
    intros Hinv h Hopen;
    try (apply isOpen_after_open in Hopen as [Hopen|Hopen];
         [|now rewrite Hopen]);
    rewrite ?isOpen_after_fetch, ?isOpen_after_close in Hopen;
    try (apply andb_true_iff in Hopen as [Hopen Hneq];
         apply Hinv in Hopen; injection Hopen as ->;
         rewrite Nat.eqb_refl in Hneq; discriminate);
    try (apply Hinv in Hopen; discriminate).
Qed.

Lemma step_currentOnly (fuel : nat) (w w' : World) (i : Input) :
  currentOnly w -> step fromISO JSON_parse fuel w i = Ok w' -> currentOnly w'.
Proof.
  intros Hinv H. destruct i as [v|changed|url x|h data|h]; simpl in H.
  - injection H as <-. exact Hinv.
  - injection H as <-. unfold updated.
    destruct (shouldResubscribe changed (this w)); [|exact Hinv].
    apply subscribeToStream_currentOnly. intros h Hopen. simpl in *.
    rewrite isOpen_after_requestUpdate in Hopen. now apply Hinv.
  - destruct (journeyResponse fromISO fuel x (this w)) as [el'| |] eqn:E;
      cbn [bind] in H; try discriminate.
    injection H as <-. destruct (journeyResponse_frame _ _ _ _ E) as [b ->].
    exact Hinv.
  - destruct (isOpen h (trace w)); [|injection H as <-; exact Hinv].
    destruct (onmessage_frame _ _ _ _ H) as [b ->]. exact Hinv.
  - destruct (isOpen h (trace w)); injection H as <-; [|exact Hinv].
    now apply subscribeToStream_currentOnly.
Qed.

Lemma run_currentOnly (fuel : nat) (inputs : list Input) :
  forall w w',
  currentOnly w -> run fromISO JSON_parse fuel w inputs = Ok w' ->
  currentOnly w'.
Proof.
  unfold run. induction inputs as [|i inputs IH]; intros w w' Hinv H.
  - injection H as <-. exact Hinv.
  - simpl in H.
    destruct (step fromISO JSON_parse fuel w i) as [w1| |] eqn:E;
      cbn [bind] in H; try discriminate.
    exact (IH _ _ (step_currentOnly _ _ _ _ Hinv E) H).
Qed.

Lemma handle_currentOnly (fuel : nat) (w w' : World) (o : Page.Occurrence) :
  currentOnly w -> Page.handle fromISO JSON_parse fuel w o = Ok w' ->
  currentOnly w'.
Proof.
  intros Hinv H. destruct o as [a|i]; simpl in H.
  - injection H as <-. intros h Hopen.
    destruct a; simpl in *; now apply Hinv.
  - destruct (step fromISO JSON_parse fuel w i) as [w1|e|] eqn:E;
      try discriminate; injection H as <-.
    + exact (step_currentOnly _ _ _ _ Hinv E).
    + exact Hinv.
Qed.

Lemma handleAll_currentOnly (fuel : nat) (occurrences : list Page.Occurrence) :
  forall w w',
  currentOnly w ->
  Page.handleAll fromISO JSON_parse fuel w occurrences = Ok w' ->
  currentOnly w'.
Proof.
  unfold Page.handleAll.
  induction occurrences as [|o rest IH]; intros w w' Hinv H.
  - injection H as <-. exact Hinv.
  - simpl in H.
    destruct (Page.handle fromISO JSON_parse fuel w o) as [w1| |] eqn:E;
      cbn [bind] in H; try discriminate.
    exact (IH _ _ (handle_currentOnly _ _ _ _ Hinv E) H).
Qed.

(** X14: whatever happens to an element that starts with an empty trace
    (assignments to any of its properties, updates, responses, messages and
    errors in any order, callbacks that throw included), as long as no
    callback fails to return, at most one live connection is open, and it is
    the one held in [this.eventSource]: every connection that the element
    opened before has been closed.  What holds after a sequence holds after
    each of its prefixes, so also up to a callback that does not return. *)
Theorem at_most_one_connection_open (fuel : nat)
    (occurrences : list Page.Occurrence) (w0 w : World) (h : nat) :
  trace w0 = [] ->
  Page.handleAll fromISO JSON_parse fuel w0 occurrences = Ok w ->
  isOpen h (trace w) = true ->
  eventSource (this w) = Some h /\
  forall h', isOpen h' (trace w) = true -> h' = h.
Proof.
  intros Hempty Hrun Hopen.
  assert (Hinv : currentOnly w).
  { apply (handleAll_currentOnly fuel occurrences w0 w); [|exact Hrun].
    intros k Hk. rewrite Hempty in Hk. discriminate. }
  split; [now apply Hinv|].
  intros h' Hopen'. apply Hinv in Hopen. apply Hinv in Hopen'. congruence.
Qed.

End Connections.

Lemma at_most_one_connection_open_witness :
  exists w,
    Page.handleAll Sample.fromISO parseWithNumericPerson 2
      (Sample.world (Sample.element livestream "A" 5 []))
      [Page.Delivered (PropertiesUpdated [("streamId", null)]);
       Page.Delivered (MessageReceived 1 numericPersonText);
       Page.Assigned (Page.AssignType journey_and_stream);
       Page.Delivered (ErrorOccurred 1);
       Page.Delivered (MessageReceived 4 (Sample.objectText Sample.visit));
       Page.Assigned (Page.AssignFilter (str "x"));
       Page.Delivered (PropertiesUpdated [("filter", undefined)])] = Ok w /\
    eventSource (this w) = Some 8 /\
    forall h', isOpen h' (trace w) = true -> h' = 8.
Proof.
  eexists. split; [vm_compute; reflexivity|].
  apply (at_most_one_connection_open Sample.fromISO parseWithNumericPerson 2
           [Page.Delivered (PropertiesUpdated [("streamId", null)]);
            Page.Delivered (MessageReceived 1 numericPersonText);
            Page.Assigned (Page.AssignType journey_and_stream);
            Page.Delivered (ErrorOccurred 1);
            Page.Delivered
              (MessageReceived 4 (Sample.objectText Sample.visit));
            Page.Assigned (Page.AssignFilter (str "x"));
            Page.Delivered (PropertiesUpdated [("filter", undefined)])]
           (Sample.world (Sample.element livestream "A" 5 []))).
  - reflexivity.
  - vm_compute. reflexivity.
  - reflexivity.
Defined.

Section Reconnection.

Variable fromISO : Value -> DateTime.
Variable JSON_parse : string -> option JSON.

Lemma journeyResponse_Permutation (fuel : nat) (items : list JSON)
    (el : ELEMENT) :
  isLivestream (type el) = false ->
  forallb isWireMessage items = true ->
  length (tapeEvents el) + length items <= fuel ->
  exists events buf,
    mapM (Utils.getTapeEventFromMessage fromISO) items = Ok events /\
    length events = length items /\
    journeyResponse fromISO fuel (JArr items) el = Ok (setTapeEvents buf el) /\
    Permutation buf (events ++ tapeEvents el).
Proof.
  intros Hm Hwire Hf.
  destruct (wire_messages_normalize fromISO items Hwire)
    as [events [Hmap [Hlen _]]].
  destruct (enqueueAll_Permutation events fuel el Hm) as [buf [Hrun Hperm]];
    [lia|].
  exists events, buf. repeat split; trivial.
  unfold journeyResponse. now rewrite Hmap.
Qed.

(** X15: events are not de-duplicated, and the error handler fetches the
    history again without emptying the buffer.  In [journey-and-stream]
    mode, when the history has been received, the connection fails and the
    history is received again, the handler of the error issues a second
    request for the same URL and the buffer ends up holding every event of
    the history twice, beside what it held before. *)
Theorem reconnect_duplicates_history (fuel : nat) (w : World) (h : nat)
    (url : string) (items : list JSON) :
  type (this w) = journey_and_stream ->
  isOpen h (trace w) = true ->
  forallb isWireMessage items = true ->
  length (tapeEvents (this w)) + 2 * length items <= fuel ->
  exists w' events requests,
    run fromISO JSON_parse fuel w
        [JourneyResponded url (JArr items);
         ErrorOccurred h;
         JourneyResponded url (JArr items)] = Ok w' /\
    mapM (Utils.getTapeEventFromMessage fromISO) items = Ok events /\
    Permutation (tapeEvents (this w'))
                (events ++ events ++ tapeEvents (this w)) /\
    trace w' = trace w ++ requests /\
    In (Fetch (journeyURL (this w))) requests.
Proof.
  intros Hmode Hopen Hwire Hf.
  assert (Hm : isLivestream (type (this w)) = false) by now rewrite Hmode.
  destruct (journeyResponse_Permutation fuel items (this w) Hm Hwire)
    as [events [buf1 [Hmap [Hlen [Hr1 Hp1]]]]]; [lia|].
  set (w1 := withThis (setTapeEvents buf1 (this w)) w).
  set (w2 := subscribeToStream w1).
  assert (Hbuf2 : tapeEvents (this w2) = buf1)
    by (unfold w2; now rewrite subscribeToStream_tapeEvents).
  assert (Hty2 : type (this w2) = journey_and_stream)
    by (unfold w2; now rewrite subscribeToStream_type).
  assert (Hlen1 : length buf1 = length items + length (tapeEvents (this w))).
  { rewrite (Permutation_length Hp1), length_app. lia. }
  destruct (journeyResponse_Permutation fuel items (this w2))
    as [events' [buf2 [Hmap' [_ [Hr2 Hp2]]]]].
  { now rewrite Hty2. }
  { exact Hwire. }
  { rewrite Hbuf2. lia. }
  rewrite Hmap in Hmap'. injection Hmap' as <-.
  exists (withThis (setTapeEvents buf2 (this w2)) w2), events.
  eexists. split; [|split; [exact Hmap|split; [|split]]].
  - unfold run. cbn [foldM step]. rewrite Hr1. cbn [bind].
    fold w1. change (trace w1) with (trace w). rewrite Hopen.
    cbn [bind]. unfold onerror. fold w2. now rewrite Hr2.
  - simpl. rewrite Hp2, Hbuf2, Hp1. reflexivity.
  - simpl. unfold w2. rewrite subscribeToStream_trace. reflexivity.
  - change (type (this w1)) with (type (this w)). rewrite Hmode. simpl.
    apply in_or_app. right. now left.
Qed.

End Reconnection.

Lemma reconnect_duplicates_history_witness :
  let w := subscribeToStream
             (Sample.world (Sample.element journey_and_stream "A" 5 [])) in
  exists w' events requests,
    run Sample.fromISO Sample.JSON_parse 2 w
        [JourneyResponded "https://trycjaas.exp.bz/journey?A&$top=10"
                          (JArr [Sample.objectValue Sample.visit]);
         ErrorOccurred 1;
         JourneyResponded "https://trycjaas.exp.bz/journey?A&$top=10"
                          (JArr [Sample.objectValue Sample.visit])] = Ok w' /\
    mapM (Utils.getTapeEventFromMessage Sample.fromISO)
         [Sample.objectValue Sample.visit] = Ok events /\
    Permutation (tapeEvents (this w'))
                (events ++ events ++ tapeEvents (this w)) /\
    trace w' = trace w ++ requests /\
    In (Fetch (journeyURL (this w))) requests.
Proof.
  apply (reconnect_duplicates_history Sample.fromISO Sample.JSON_parse 2
           (subscribeToStream
              (Sample.world (Sample.element journey_and_stream "A" 5 [])))
           1 "https://trycjaas.exp.bz/journey?A&$top=10"
           [Sample.objectValue Sample.visit]).
  - reflexivity.
  - reflexivity.
  - reflexivity.
  - simpl. lia.
Defined.

(** ** The icon table *)

Lemma own_setOwn_same (key : string) (d : Icons.IconData)
    (table : list (string * Icons.IconData)) :
  Icons.own key (Icons.setOwn key d table) = Some d.
Proof.
  induction table as [|[k d'] rest IH]; simpl.
  - now rewrite String.eqb_refl.
  - destruct (String.eqb k key) eqn:E; simpl.
    + now rewrite String.eqb_refl.
    + now rewrite E.
Qed.

Lemma own_setOwn_other (key key' : string) (d : Icons.IconData)
    (table : list (string * Icons.IconData)) :
  key <> key' ->
  Icons.own key' (Icons.setOwn key d table) = Icons.own key' table.
Proof.
  intros Hne. induction table as [|[k d'] rest IH]; simpl.
  - apply String.eqb_neq in Hne. now rewrite Hne.
  - destruct (String.eqb k key) eqn:E; simpl.
    + apply String.eqb_eq in E. subst k.
      apply String.eqb_neq in Hne. now rewrite Hne.
    + now rewrite IH.
Qed.

Section IconFacts.

Variable random : nat -> Q.
Variable regexTest : string -> string -> bool.
Variable inheritedKey : string -> bool.

Local Abbreviation getIconData :=
  (Icons.getIconData random regexTest inheritedKey).
Local Abbreviation lookedUp :=
  (Icons.lookedUp random regexTest inheritedKey).
Local Abbreviation matchKnown :=
  (Icons.matchKnown regexTest inheritedKey).

Lemma matchKnown_none (eventName : string) :
  (forall x, In x (map fst Icons.EVENT_ICON_MAP) ->
             regexTest x eventName = false) ->
  matchKnown eventName = None.
Proof.
  intros H. unfold Icons.matchKnown. simpl.
  rewrite !H by (simpl; tauto). reflexivity.
Qed.

Lemma getIconData_remembered (eventName : string) (d : Icons.IconData)
    (s : Icons.Env) :
  matchKnown eventName = None ->
  Icons.own eventName (Icons.TEMP_ICON_MAP s) = Some d ->
  getIconData eventName s = (Some (Icons.Icon d), s).
Proof.
  intros Hk Ho. unfold Icons.getIconData, Icons.lookup. now rewrite Hk, Ho.
Qed.

Lemma getIconData_keeps_entries (key eventName : string)
    (d : Icons.IconData) (s : Icons.Env) :
  Icons.own key (Icons.TEMP_ICON_MAP s) = Some d ->
  Icons.own key (Icons.TEMP_ICON_MAP (snd (getIconData eventName s)))
  = Some d.
Proof.
  intros Ho. unfold Icons.getIconData.
  destruct (matchKnown eventName); [exact Ho|].
  unfold Icons.lookup.
  destruct (Icons.own eventName (Icons.TEMP_ICON_MAP s)) eqn:E; [exact Ho|].
  destruct (inheritedKey eventName); [exact Ho|]. simpl.
  rewrite own_setOwn_other; [exact Ho|]. intros ->. congruence.
Qed.

Lemma lookedUp_keeps_entries (key : string) (d : Icons.IconData)
    (eventNames : list string) :
  forall s,
  Icons.own key (Icons.TEMP_ICON_MAP s) = Some d ->
  Icons.own key (Icons.TEMP_ICON_MAP (lookedUp eventNames s)) = Some d.
Proof.
  induction eventNames as [|n rest IH]; intros s Ho; [exact Ho|].
  simpl. apply IH. now apply getIconData_keeps_entries.
Qed.

(** X16: when several patterns of [EVENT_ICON_MAP] match an event name, the
    entry of the last matching pattern, in the order of the table, is
    returned; a name that matches a pattern never reads or writes
    [TEMP_ICON_MAP] and draws no random number. *)
Theorem last_matching_pattern_wins (eventName pattern : string)
    (d : Icons.IconData) (before after : list (string * Icons.IconData))
    (s : Icons.Env) :
  Icons.EVENT_ICON_MAP = before ++ (pattern, d) :: after ->
  regexTest pattern eventName = true ->
  (forall x, In x (map fst after) -> regexTest x eventName = false) ->
  getIconData eventName s = (Some (Icons.Icon d), s).
Proof.
  intros Htable Hmatch Hafter.
  assert (Hk : matchKnown eventName = Some (Icons.Icon d)).
  { unfold Icons.matchKnown, Icons.EVENT_ICON_MAP in *.
    destruct before as [|e1 [|e2 [|e3 [|e4 before]]]];
      simpl in Htable; injection Htable as <-; intros; subst; simpl;
      try (destruct before; discriminate);
      rewrite Hmatch, ?Hafter by (simpl; tauto);
      repeat match goal with
      | |- context [if ?c then _ else _] => destruct c
      end; reflexivity. }
  unfold Icons.getIconData. now rewrite Hk.
Qed.

(** X17: an event name that matches no pattern and is not a member of
    [Object.prototype] is given an icon and a colour on its first lookup,
    and keeps them: after any further lookups, of any names, looking it up
    again returns the same entry and changes nothing. *)
Theorem unknown_name_keeps_its_icon (eventName : string)
    (others : list string) (s : Icons.Env) :
  (forall x, In x (map fst Icons.EVENT_ICON_MAP) ->
             regexTest x eventName = false) ->
  inheritedKey eventName = false ->
  exists d,
    fst (getIconData eventName s) = Some (Icons.Icon d) /\
    let s' := lookedUp others (snd (getIconData eventName s)) in
    getIconData eventName s' = (Some (Icons.Icon d), s').
Proof.
  intros Hnone Hinh. pose proof (matchKnown_none eventName Hnone) as Hk.
  assert (Hfirst : exists d,
            fst (getIconData eventName s) = Some (Icons.Icon d) /\
            Icons.own eventName
              (Icons.TEMP_ICON_MAP (snd (getIconData eventName s))) = Some d).
  { unfold Icons.getIconData, Icons.lookup. rewrite Hk, Hinh.
    destruct (Icons.own eventName (Icons.TEMP_ICON_MAP s)) as [d|] eqn:E.
    - exists d. now split.
    - eexists. simpl. split; [reflexivity|]. apply own_setOwn_same. }
  destruct Hfirst as [d [Hres Hown]]. exists d. split; [exact Hres|].
  intros s'. apply getIconData_remembered; [exact Hk|].
  now apply lookedUp_keeps_entries.
Qed.

Local Abbreviation noInheritedOwn := (noInheritedOwnKey inheritedKey).

Lemma getIconData_noInheritedOwn (eventName : string) (s : Icons.Env) :
  noInheritedOwn s -> noInheritedOwn (snd (getIconData eventName s)).
Proof.
  intros Hinv key Hkey. unfold Icons.getIconData.
  destruct (matchKnown eventName); [now apply Hinv|].
  unfold Icons.lookup.
  destruct (Icons.own eventName (Icons.TEMP_ICON_MAP s)) eqn:E;
    [now apply Hinv|].
  destruct (inheritedKey eventName) eqn:I; [now apply Hinv|]. simpl.
  rewrite own_setOwn_other; [now apply Hinv|]. intros ->. congruence.
Qed.

Lemma lookedUp_noInheritedOwn (eventNames : list string) :
  forall s, noInheritedOwn s -> noInheritedOwn (lookedUp eventNames s).
Proof.
  induction eventNames as [|n rest IH]; intros s Hinv; [exact Hinv|].
  simpl. apply IH. now apply getIconData_noInheritedOwn.
Qed.

(** X19: the name of a member of [Object.prototype] that matches no pattern
    never gets an icon.  After any lookups on a table that started empty,
    [TEMP_ICON_MAP[eventName]] reads the inherited member, which is truthy:
    [getIconData] returns that member, generates nothing and stores
    nothing. *)
Theorem inherited_name_gets_no_icon (eventName : string)
    (earlier : list string) (drawn : nat) :
  (forall x, In x (map fst Icons.EVENT_ICON_MAP) ->
             regexTest x eventName = false) ->
  inheritedKey eventName = true ->
  let s := lookedUp earlier
             {| Icons.TEMP_ICON_MAP := []; Icons.drawn := drawn |} in
  getIconData eventName s = (Some (Icons.Inherited eventName), s).
Proof.
  intros Hnone Hinh s.
  assert (Hinv : noInheritedOwn s).
  { apply lookedUp_noInheritedOwn. intros key _. reflexivity. }
  unfold Icons.getIconData, Icons.lookup.
  now rewrite (matchKnown_none eventName Hnone), (Hinv _ Hinh), Hinh.
Qed.

End IconFacts.

Lemma last_matching_pattern_wins_witness :
  Icons.getIconData IconSample.random IconSample.regexTest
    IconSample.inheritedKey "NPS Page Visit" IconSample.start
  = (Some (Icons.Icon {| Icons.name := Some "icon-analysis_16";
                         Icons.color := Some "red" |}),
     IconSample.start).
Proof.
  apply (last_matching_pattern_wins IconSample.random IconSample.regexTest
           IconSample.inheritedKey "NPS Page Visit" "NPS.*"
           {| Icons.name := Some "icon-analysis_16";
              Icons.color := Some "red" |}
           [("Page Visit",
             {| Icons.name := Some "icon-open-pages_16";
                Icons.color := Some "purple" |});
            ("Identify",
             {| Icons.name := Some "icon-user_16";
                Icons.color := Some "blue" |})]
           [("Walkin Offered",
             {| Icons.name := Some "icon-audio-video_16";
                Icons.color := Some "yellow" |})]
           IconSample.start).
  - reflexivity.
  - reflexivity.
  - intros x [<-|[]]. reflexivity.
Defined.

Lemma unknown_name_keeps_its_icon_witness :
  exists d,
    fst (Icons.getIconData IconSample.random IconSample.regexTest
           IconSample.inheritedKey "Checkout" IconSample.start)
    = Some (Icons.Icon d) /\
    let s' := Icons.lookedUp IconSample.random IconSample.regexTest
                IconSample.inheritedKey ["Login"; "Identify"]
                (snd (Icons.getIconData IconSample.random IconSample.regexTest
                        IconSample.inheritedKey "Checkout" IconSample.start))
    in
    Icons.getIconData IconSample.random IconSample.regexTest
      IconSample.inheritedKey "Checkout" s'
    = (Some (Icons.Icon d), s').
Proof.
  apply (unknown_name_keeps_its_icon IconSample.random IconSample.regexTest
           IconSample.inheritedKey "Checkout" ["Login"; "Identify"]
           IconSample.start).
  - intros x [<-|[<-|[<-|[<-|[]]]]]; reflexivity.
  - reflexivity.
Defined.

Lemma inherited_name_gets_no_icon_witness :
  let s := Icons.lookedUp IconSample.random IconSample.regexTest
             IconSample.inheritedKey ["Checkout"]
             {| Icons.TEMP_ICON_MAP := []; Icons.drawn := 0 |} in
  Icons.getIconData IconSample.random IconSample.regexTest
    IconSample.inheritedKey "constructor" s
  = (Some (Icons.Inherited "constructor"), s).
Proof.
  apply (inherited_name_gets_no_icon IconSample.random IconSample.regexTest
           IconSample.inheritedKey "constructor" ["Checkout"] 0).
  - intros x [<-|[<-|[<-|[<-|[]]]]]; reflexivity.
  - reflexivity.
Defined.
